(** * Incremental-processing planner of nianalysis / arcana

    A shallow embedding of
      - [nianalysis/archive/base.py]: the tree snapshot classes
        [Project], [Subject], [Visit], [Session] and their equality;
      - [arcana/processor/base.py]: [BaseProcessor._to_process],
        [BaseProcessor._subject_and_session_iterators] and
        [BaseProcessor._connect_to_repository].

    Python strings are [string], Python [dict]s are [gmap], Python [set]s are
    [gset], exceptions are the constructors of [exn] and a call that can raise
    returns in a sum type. *)

From Stdlib Require Import ssreflect.
From stdpp Require Import base gmap sets list strings pretty.

Open Scope general_if_scope.
Open Scope string_scope.
Open Scope list_scope.

#[local] Set Warnings "-register-all,-rewrite-rw,-clear-no-such-hyp".

(** ** Tree snapshot classes of [nianalysis/archive/base.py] *)

Module Archive.

(** [Session]: ids, the data found in the session and, when processed
    scans are kept apart, the session that holds them. Datasets and fields
    are represented by their names. *)
Inductive Session : Type :=
  mkSession {
      subject_id : string;
      visit_id : string;
      session_datasets : list string;
      session_fields : list string;
      processed : option Session
    }.

Record Subject : Type :=
  mkSubject {
      subject__id : string;
      subject__sessions : list Session;
      subject__datasets : list string;
      subject__fields : list string
    }.

Record Visit : Type :=
  mkVisit {
      visit__id : string;
      visit__sessions : list Session;
      visit__datasets : list string;
      visit__fields : list string
    }.

Record Project : Type :=
  mkProject {
      project__id : string;
      project__subjects : list Subject;
      project__visits : list Visit;
      project__datasets : list string;
      project__fields : list string
    }.

(** The values an [other] argument of [__eq__] can be: an instance of one
    of the four classes (none is a subclass of another), or something else
    ([None], a string). *)
Inductive value : Type :=
| VProject (p : Project)
| VSubject (s : Subject)
| VVisit (v : Visit)
| VSession (s : Session)
| VNone
| VStr (s : string).

Definition str_eqb (a b : string) : bool := bool_decide (a = b).

(** Python's [==] on two lists: same length and pairwise equal. *)
Fixpoint list_eqb {A : Type} (eqb : A -> A -> bool) (l1 l2 : list A) : bool :=
  match l1, l2 with
  | [], [] => true
  | x :: l1', y :: l2' => eqb x y && list_eqb eqb l1' l2'
  | _, _ => false
  end.

(** [Session.__eq__] on two sessions; [processed] is a session or [None]. *)
Fixpoint session_eqb (a b : Session) {struct a} : bool :=
  str_eqb (subject_id a) (subject_id b)
  && str_eqb (visit_id a) (visit_id b)
  && list_eqb str_eqb (session_datasets a) (session_datasets b)
  && list_eqb str_eqb (session_fields a) (session_fields b)
  && match processed a, processed b with
     | None, None => true
     | Some pa, Some pb => session_eqb pa pb
     | _, _ => false
     end.

Definition isinstance_Subject (x : value) : bool :=
  match x with VSubject _ => true | _ => false end.

Definition isinstance_Session (x : value) : bool :=
  match x with VSession _ => true | _ => false end.

(** [Session.__eq__] *)
Definition Session__eq__ (self : Session) (other : value) : bool :=
  match other with
  | VSession o => session_eqb self o
  | _ => false
  end.

(** [Subject.__eq__] *)
Definition Subject__eq__ (self : Subject) (other : value) : bool :=
  match other with
  | VSubject o =>
      str_eqb (subject__id self) (subject__id o)
      && list_eqb session_eqb (subject__sessions self) (subject__sessions o)
      && list_eqb str_eqb (subject__datasets self) (subject__datasets o)
      && list_eqb str_eqb (subject__fields self) (subject__fields o)
  | _ => false
  end.

Definition Subject__ne__ (self : Subject) (other : value) : bool :=
  negb (Subject__eq__ self other).

(** [Visit.__eq__]: the guard tests [isinstance(other, Subject)], and the
    comparison that follows reads the [_id], [_sessions], [_datasets] and
    [_fields] attributes of that subject. *)
Definition Visit__eq__ (self : Visit) (other : value) : bool :=
  if negb (isinstance_Subject other) then false
  else
    match other with
    | VSubject o =>
        str_eqb (visit__id self) (subject__id o)
        && list_eqb session_eqb (visit__sessions self) (subject__sessions o)
        && list_eqb str_eqb (visit__datasets self) (subject__datasets o)
        && list_eqb str_eqb (visit__fields self) (subject__fields o)
    | _ => false
    end.

(** [Visit.__ne__]: [not (self == other)] *)
Definition Visit__ne__ (self : Visit) (other : value) : bool :=
  negb (Visit__eq__ self other).

End Archive.

(** ** The processor of [arcana/processor/base.py] *)

Module Processor.

(** *** Exceptions and results *)

Inductive exn : Type :=
| ArcanaError (msg : string)
| ArcanaUsageError (msg : string)
| ArcanaNoRunRequiredException (msg : string)
| ArcanaNoConverterError (msg : string)
| ArcanaMissingDataException (msg : string)
| ArcanaNameError (msg : string)
| AttributeError (msg : string)
| AssertionError (msg : string)
| StopIteration.

Definition is_no_run_required (e : exn) : bool :=
  match e with ArcanaNoRunRequiredException _ => true | _ => false end.

(** Records written to the ['arcana'] logger. *)
Inductive LogRecord : Type :=
| Warning (msg : string)
| Info (msg : string).

(** [sep.join(l)] *)
Definition join (sep : string) (l : list string) : string := String.concat sep l.

(** *** Data model *)

Inductive Frequency : Type := per_session | per_subject | per_visit | per_study.

#[global] Instance Frequency_eq_dec : EqDecision Frequency.
Proof. solve_decision. Defined.

Definition Frequency_str (f : Frequency) : string :=
  match f with
  | per_session => "per_session"
  | per_subject => "per_subject"
  | per_visit => "per_visit"
  | per_study => "per_study"
  end.

(** A session of the tree, identified by its subject and visit ids;
    [session.subject.id] is [subject_id]. *)
Record Session : Type := mkSession { subject_id : string; visit_id : string }.

#[global] Instance Session_eq_dec : EqDecision Session.
Proof. solve_decision. Defined.

#[global] Instance Session_countable : Countable Session.
Proof.
  refine (inj_countable' (fun s => (subject_id s, visit_id s))
                         (fun p => mkSession p.1 p.2) _).
  by intros [].
Defined.

(** An item of a collection: the ids of the node it belongs to (unused above
    the item's frequency) and whether it exists in the repository. *)
Record Item : Type :=
  mkItem { item_subject_id : string; item_visit_id : string; item_exists : bool }.

Definition item_session (i : Item) : Session :=
  mkSession (item_subject_id i) (item_visit_id i).

(** What [study.spec(name)] returns: a selector or a spec bound to the
    study. [is_fileset] is [isinstance(_, BaseFileset)], otherwise the datum
    is a [BaseField]; the collection carries the frequency of its spec. *)
Record BoundSpec : Type :=
  mkBoundSpec {
      bs_name : string;
      frequency : Frequency;
      is_fileset : bool;
      format : string;
      is_spec : bool;
      collection : list Item
    }.

(** A converter between two file formats: [get_node] gives a node with one
    input field and one output field. *)
Record Converter : Type :=
  mkConverter { conv_in_field : string; conv_out_field : string }.

(** Modelled from the spec: the tree snapshot of [arcana.repository.tree],
    which is not among the sources. The tree is the list of its sessions
    (subject x visit), without repetition. *)
Record Tree : Type := mkTree { sessions : list Session }.

Definition tree_subject_ids (t : Tree) : list string :=
  remove_dups (subject_id <$> sessions t).

Definition tree_visit_ids (t : Tree) : list string :=
  remove_dups (visit_id <$> sessions t).

(** Modelled from the spec: [tree.incomplete_subjects], the subjects that are
    missing one or more of the visits of the tree. *)
Definition incomplete_subjects (t : Tree) : list string :=
  filter (fun s => ¬ Forall (fun v => mkSession s v ∈ sessions t) (tree_visit_ids t))
         (tree_subject_ids t).

(** Modelled from the spec: [tree.incomplete_visits], the visits that are
    missing for one or more of the subjects of the tree. *)
Definition incomplete_visits (t : Tree) : list string :=
  filter (fun v => ¬ Forall (fun s => mkSession s v ∈ sessions t) (tree_subject_ids t))
         (tree_visit_ids t).

(** Modelled from the spec: [tree.subject(id).sessions]; an unknown id is a
    name error. *)
Definition Tree_subject_sessions (t : Tree) (id : string) : exn + list Session :=
  if bool_decide (id ∈ tree_subject_ids t)
  then inr (filter (fun s => subject_id s = id) (sessions t))
  else inl (ArcanaNameError id).

(** Modelled from the spec: [tree.visit(id).sessions]. *)
Definition Tree_visit_sessions (t : Tree) (id : string) : exn + list Session :=
  if bool_decide (id ∈ tree_visit_ids t)
  then inr (filter (fun s => visit_id s = id) (sessions t))
  else inl (ArcanaNameError id).

(** Modelled from the spec: [tree.session(subject_id, visit_id)]. *)
Definition Tree_session (t : Tree) (sid vid : string) : exn + Session :=
  if bool_decide (mkSession sid vid ∈ sessions t)
  then inr (mkSession sid vid)
  else inl (ArcanaNameError (sid +:+ "/" +:+ vid)).

(** The study the processor is bound to, as far as the processor reads it:
    its name, the data it resolves names to, its tree, the converters
    registered between formats, keyed by (required format, stored format),
    and the missing-data message its [source] call fails with, if it does. *)
Record Study : Type :=
  mkStudy {
      study_name : string;
      study_specs : gmap string BoundSpec;
      tree : Tree;
      converters : gmap (string * string) Converter;
      source_missing : option string
    }.

(** [study.spec(name)] *)
Definition spec (study : Study) (name : string) : exn + BoundSpec :=
  match study_specs study !! name with
  | Some b => inr b
  | None => inl (ArcanaNameError name)
  end.

(** [required.converter_from(stored)] *)
Definition converter_from (study : Study) (required stored : string) : exn + Converter :=
  match converters study !! (required, stored) with
  | Some c => inr c
  | None =>
      inl (ArcanaNoConverterError
             ("There is no converter to convert " +:+ stored +:+ " to " +:+ required))
  end.

(** An input or output as declared on the pipeline: name and format. *)
Record PipelineSpec : Type := mkPipelineSpec { ps_name : string; ps_format : string }.

(** A pipeline: [_outputs] is the dictionary from frequency to the outputs
    declared at it, in iteration order; [is_connected] tells whether
    [assert_connected] passes. *)
Inductive Pipeline : Type :=
  mkPipeline {
      name : string;
      inputs : list PipelineSpec;
      _outputs : list (Frequency * list PipelineSpec);
      prerequisites : list Pipeline;
      is_connected : bool
    }.

(** [pipeline.outputs]: the names of the outputs of all frequencies. *)
Definition outputs (p : Pipeline) : list string :=
  flat_map (fun fo => ps_name <$> fo.2) (_outputs p).

(** [BaseProcessor]: the attributes [__init__] and [bind] set. The class
    defines no [name]; [proc_name] is the [name] attribute of the instance
    when its own class provides one. *)
Record BaseProcessor : Type :=
  mkBaseProcessor {
      _work_dir : string;
      _reprocess : bool;
      study : Study;
      proc_name : option string
    }.

(** *** [_to_process] *)

(** [[o for o in pipeline.outputs
      if self.study.spec(o).frequency != 'per_session']] *)
Fixpoint non_per_session_outputs (st : Study) (outs : list string)
  : exn + list string :=
  match outs with
  | [] => inr []
  | o :: rest =>
      match spec st o with
      | inl e => inl e
      | inr sp =>
          match non_per_session_outputs st rest with
          | inl e => inl e
          | inr l =>
              inr (if bool_decide (frequency sp ≠ per_session) then o :: l else l)
          end
      end
  end.

(** [ids is None or id in ids] *)
Definition passes (ids : option (list string)) (id : string) : bool :=
  match ids with
  | None => true
  | Some l => bool_decide (id ∈ l)
  end.

(** The warning logged when a filter is given for a frequency it cannot
    restrict. *)
Definition cannot_restrict (what : string) (ids : option (list string))
  (pipeline_name freq output : string) : list LogRecord :=
  match ids with
  | None => []
  | Some l =>
      [Warning ("Cannot restrict processing to " +:+ what +:+ " IDs ("
                +:+ join ", " l +:+ ") for '" +:+ pipeline_name
                +:+ "' pipeline as it has a '" +:+ freq +:+ "' output ('"
                +:+ output +:+ "')")]
  end.

(** The loop over the items of a [per_subject] collection. *)
Fixpoint update_per_subject (t : Tree) (subject_ids : option (list string))
  (items : list Item) (acc : gset Session) : exn + gset Session :=
  match items with
  | [] => inr acc
  | item :: rest =>
      if negb (item_exists item) && passes subject_ids (item_subject_id item)
      then match Tree_subject_sessions t (item_subject_id item) with
           | inl e => inl e
           | inr ss => update_per_subject t subject_ids rest (acc ∪ list_to_set ss)
           end
      else update_per_subject t subject_ids rest acc
  end.

(** The loop over the items of a [per_visit] collection. *)
Fixpoint update_per_visit (t : Tree) (visit_ids : option (list string))
  (items : list Item) (acc : gset Session) : exn + gset Session :=
  match items with
  | [] => inr acc
  | item :: rest =>
      if negb (item_exists item) && passes visit_ids (item_visit_id item)
      then match Tree_visit_sessions t (item_visit_id item) with
           | inl e => inl e
           | inr ss => update_per_visit t visit_ids rest (acc ∪ list_to_set ss)
           end
      else update_per_visit t visit_ids rest acc
  end.

(** The loop over the items of a [per_session] collection. *)
Fixpoint add_per_session (t : Tree) (subject_ids visit_ids : option (list string))
  (items : list Item) (acc : gset Session) : exn + gset Session :=
  match items with
  | [] => inr acc
  | item :: rest =>
      if negb (item_exists item)
         && passes subject_ids (item_subject_id item)
         && passes visit_ids (item_visit_id item)
      then match Tree_session t (item_subject_id item) (item_visit_id item) with
           | inl e => inl e
           | inr s => add_per_session t subject_ids visit_ids rest (acc ∪ {[ s ]})
           end
      else add_per_session t subject_ids visit_ids rest acc
  end.

(** The loop [for output in pipeline.outputs]; a missing [per_study] item
    returns from [_to_process] at once. The frequency is one of the four, so
    the final [assert False] branch is not reached. *)
Fixpoint to_process_loop (st : Study) (pipeline_name : string)
  (subject_ids visit_ids : option (list string)) (outs : list string)
  (acc : gset Session) (log : list LogRecord)
  : list LogRecord * (exn + list Session) :=
  match outs with
  | [] => (log, inr (elements acc))
  | output :: rest =>
      match spec st output with
      | inl e => (log, inl e)
      | inr sp =>
          let items := collection sp in
          match frequency sp with
          | per_study =>
              let log' :=
                log ++ cannot_restrict "subject" subject_ids pipeline_name
                                       "per_study" output
                    ++ cannot_restrict "visit" visit_ids pipeline_name
                                       "per_study" output in
              match items with
              | [] => (log', inl StopIteration)
              | item :: _ =>
                  if negb (item_exists item)
                  then (log', inr (sessions (tree st)))
                  else to_process_loop st pipeline_name subject_ids visit_ids
                                       rest acc log'
              end
          | per_subject =>
              let log' :=
                log ++ cannot_restrict "visit" visit_ids pipeline_name
                                       "per_subject" output in
              match update_per_subject (tree st) subject_ids items acc with
              | inl e => (log', inl e)
              | inr acc' =>
                  to_process_loop st pipeline_name subject_ids visit_ids
                                  rest acc' log'
              end
          | per_visit =>
              let log' :=
                log ++ cannot_restrict "subject" subject_ids pipeline_name
                                       "per_visit" output in
              match update_per_visit (tree st) visit_ids items acc with
              | inl e => (log', inl e)
              | inr acc' =>
                  to_process_loop st pipeline_name subject_ids visit_ids
                                  rest acc' log'
              end
          | per_session =>
              match add_per_session (tree st) subject_ids visit_ids items acc with
              | inl e => (log, inl e)
              | inr acc' =>
                  to_process_loop st pipeline_name subject_ids visit_ids
                                  rest acc' log
              end
          end
      end
  end.

(** [sessions.extend(tree.sessions)] on a Python [set]: the builtin set has
    [update] but no [extend], so the attribute lookup fails. *)
Definition set_extend (s : gset Session) (l : list Session) : exn + gset Session :=
  inl (AttributeError "'set' object has no attribute 'extend'").

(** [self.name] on the processor. *)
Definition BaseProcessor_name (self : BaseProcessor) : exn + string :=
  match proc_name self with
  | Some n => inr n
  | None => inl (AttributeError "object has no attribute 'name'")
  end.

(** The message of the usage error raised for an irregular tree. *)
Definition irregular_scope_msg (self_name : string)
  (non_per_session : list string) (t : Tree) : string :=
  "Can't process '" +:+ self_name
  +:+ "' pipeline as it has non-'per_session'outputs ("
  +:+ join ", " non_per_session +:+ ") and subjects ("
  +:+ join ", " (incomplete_subjects t)
  +:+ ") that are missing one or more visits ("
  +:+ join ", " (incomplete_visits t)
  +:+ "). Please restrict the subject/visit IDs in the study __init__ to continue the analysis".

Definition _to_process (self : BaseProcessor) (pipeline : Pipeline)
  (subject_ids visit_ids : option (list string)) (reprocess : bool)
  : list LogRecord * (exn + list Session) :=
  let t := tree (study self) in
  match non_per_session_outputs (study self) (outputs pipeline) with
  | inl e => ([], inl e)
  | inr non_per_session =>
      if bool_decide (non_per_session ≠ []) && bool_decide (incomplete_subjects t ≠ [])
      then
        match BaseProcessor_name self with
        | inl e => ([], inl e)
        | inr n => ([], inl (ArcanaUsageError (irregular_scope_msg n non_per_session t)))
        end
      else
        match (if reprocess then set_extend ∅ (sessions t) else inr ∅) with
        | inl e => ([], inl e)
        | inr acc =>
            to_process_loop (study self) (name pipeline) subject_ids visit_ids
                            (outputs pipeline) acc []
        end
  end.

(** *** The workflow under construction *)

Inductive Interface : Type :=
| InputSubjects
| InputSessions
| Merge (n : nat)
| PipelineReport
| RepositorySource
| RepositorySink (f : Frequency)
| FormatConverter (c : Converter)
| SessionReport
| SubjectSessionReport
| SubjectReport
| VisitReport.

(** The [iterables] attribute of a node: a field with its values, or, with
    an [itersource], a field with the values for each value of the source. *)
Inductive Iterables : Type :=
| NoIterables
| IterValues (field : string) (values : list string)
| IterKeyed (field : string) (values : gmap string (list string)).

(** A node object made while planning. [serial] stands for the identity of
    the Python object: every object made gets the next number. A [JoinNode]
    has a [joinsource] (the serial of the node it joins over). *)
Record NodeObj : Type :=
  mkNodeObj {
      serial : nat;
      node_name : string;
      interface : Interface;
      iterables : Iterables;
      itersource : option (string * string);
      joinsource : option nat;
      joinfield : list string
    }.

(** A node of the workflow: one made while planning, or the input node or an
    output node that a pipeline already owns. *)
Inductive Node : Type :=
| inputnode (pipeline_name : string)
| _outputnodes (pipeline_name : string) (f : Frequency)
| Made (n : NodeObj).

Record Edge : Type :=
  mkEdge { src : Node; src_field : string; dst : Node; dst_field : string }.

(** What a planning pass mutates: the object counter, the complete workflow
    (the pipeline workflows added to it, by pipeline name, and its
    connections), the [already_connected] table and the log. *)
Record State : Type :=
  mkState {
      next_serial : nat;
      added : list string;
      edges : list Edge;
      already_connected : gmap string (Pipeline * Node);
      log : list LogRecord
    }.

(** State passing with exceptions; what was mutated before a raise stays
    mutated. *)
Definition M (A : Type) : Type := State -> State * (exn + A).

#[global] Instance M_ret : MRet M := fun A a s => (s, inr a).

#[global] Instance M_bind : MBind M :=
  fun A B k m s =>
    match m s with
    | (s', inr a) => k a s'
    | (s', inl e) => (s', inl e)
    end.

Definition raise {A : Type} (e : exn) : M A := fun s => (s, inl e).

Definition lift {A : Type} (r : exn + A) : M A := fun s => (s, r).

Definition logger (records : list LogRecord) : M unit :=
  fun s => (mkState (next_serial s) (added s) (edges s) (already_connected s)
                    (log s ++ records), inr tt).

(** Making a node object. *)
Definition make_node (nm : string) (i : Interface) (it : Iterables)
  (src : option (string * string)) (js : option nat) (jf : list string) : M Node :=
  fun s =>
    (mkState (S (next_serial s)) (added s) (edges s) (already_connected s) (log s),
     inr (Made (mkNodeObj (next_serial s) nm i it src js jf))).

(** [pipeline.create_node(interface, name)]: the node is named after the
    pipeline. *)
Definition create_node (pipeline : Pipeline) (i : Interface) (nm : string)
  (it : Iterables) (src : option (string * string)) : M Node :=
  make_node (name pipeline +:+ "_" +:+ nm) i it src None [].

(** [workflow.connect(src, src_field, dst, dst_field)] *)
Definition connect (a : Node) (af : string) (b : Node) (bf : string) : M unit :=
  fun s => (mkState (next_serial s) (added s) (edges s ++ [mkEdge a af b bf])
                    (already_connected s) (log s), inr tt).

(** [complete_workflow.add_nodes([pipeline._workflow])] *)
Definition add_nodes (pipeline : Pipeline) : M unit :=
  fun s => (mkState (next_serial s) (added s ++ [name pipeline]) (edges s)
                    (already_connected s) (log s), inr tt).

(** [already_connected[pipeline.name] = (pipeline, report)] *)
Definition register (pipeline : Pipeline) (report : Node) : M unit :=
  fun s => (mkState (next_serial s) (added s) (edges s)
                    (<[name pipeline := (pipeline, report)]> (already_connected s))
                    (log s), inr tt).

Definition serial_of (n : Node) : option nat :=
  match n with
  | Made o => Some (serial o)
  | _ => None
  end.

(** Modelled from the spec: the suffix constants of [arcana.utils], which
    the processor imports. *)
Definition PATH_SUFFIX : string := "_path".
Definition FIELD_SUFFIX : string := "_field".

(** *** [_subject_and_session_iterators] *)

(** [set(s.id for s in set(s.subject for s in sessions_to_process))] *)
Definition subject_ids_to_process (sessions_to_process : list Session) : gset string :=
  list_to_set (subject_id <$> sessions_to_process).

(** [session_subjects[session.visit_id].add(session.subject_id)] over the
    sessions, on a [defaultdict(set)]. *)
Definition session_subjects (sessions_to_process : list Session)
  : gmap string (gset string) :=
  foldl (fun m s => <[visit_id s := default ∅ (m !! visit_id s) ∪ {[ subject_id s ]}]> m)
        ∅ sessions_to_process.

(** [subject_sessions[session.subject.id].append(session.visit_id)] over the
    sessions, on a [defaultdict(list)]. *)
Definition subject_sessions (sessions_to_process : list Session)
  : gmap string (list string) :=
  foldl (fun m s => <[subject_id s := default [] (m !! subject_id s) ++ [visit_id s]]> m)
        ∅ sessions_to_process.

(** [all(ss == subject_ids_to_process for ss in session_subjects.values())] *)
Definition same_subjects_every_visit (sessions_to_process : list Session) : bool :=
  bool_decide (map_Forall (fun _ ss => ss = subject_ids_to_process sessions_to_process)
                          (session_subjects sessions_to_process)).

(** The iterables given to the [subjects] node. *)
Definition subjects_iterables (sessions_to_process : list Session) : Iterables :=
  IterValues "subject_id" (elements (subject_ids_to_process sessions_to_process)).

(** The iterables and the itersource given to the [sessions] node. *)
Definition sessions_iterables (pipeline : Pipeline) (sessions_to_process : list Session)
  : Iterables * option (string * string) :=
  if same_subjects_every_visit sessions_to_process
  then (IterValues "visit_id" ((map_to_list (session_subjects sessions_to_process)).*1),
        None)
  else (IterKeyed "visit_id" (subject_sessions sessions_to_process),
        Some (name pipeline +:+ "_subjects", "subject_id")).

Definition _subject_and_session_iterators (pipeline : Pipeline)
  (sessions_to_process : list Session) : M (Node * Node) :=
  subjects ← create_node pipeline InputSubjects "subjects"
                         (subjects_iterables sessions_to_process) None;
  sessions ← create_node pipeline InputSessions "sessions"
                         (sessions_iterables pipeline sessions_to_process).1
                         (sessions_iterables pipeline sessions_to_process).2;
  connect subjects "subject_id" sessions "subject_id";;
  mret (subjects, sessions).

(** Modelled from the spec: the (subject, visit) pairs the workflow engine
    runs for the two iteration axes: the visit values crossed with the
    subject values, or, with an itersource, the visit values listed for each
    subject value. *)
Definition enumerated_pairs (subjects sessions : Iterables) : list (string * string) :=
  match subjects with
  | IterValues _ ss =>
      match sessions with
      | IterValues _ vs => s ← ss; v ← vs; [(s, v)]
      | IterKeyed _ m => s ← ss; v ← default [] (m !! s); [(s, v)]
      | NoIterables => []
      end
  | _ => []
  end.

(** *** [_connect_to_reports] *)

(** [JoinNode(interface, joinsource=..., joinfield=..., name=...)] *)
Definition JoinNode (i : Interface) (js : Node) (jf : list string) (nm : string)
  : M Node :=
  make_node nm i NoIterables None (serial_of js) jf.

Definition _connect_to_reports (pipeline : Pipeline) (sink output_summary : Node)
  (freq : Frequency) (subjects sessions : Node) : M unit :=
  match freq with
  | per_session =>
      session_outputs ← JoinNode SessionReport sessions ["subjects"; "sessions"]
                                 (name pipeline +:+ "_session_outputs");
      subject_session_outputs ← JoinNode SubjectSessionReport subjects
                                 ["subject_session_pairs"]
                                 (name pipeline +:+ "_subject_session_outputs");
      connect sink "subject_id" session_outputs "subjects";;
      connect sink "visit_id" session_outputs "sessions";;
      connect session_outputs "subject_session_pairs"
              subject_session_outputs "subject_session_pairs";;
      connect subject_session_outputs "subject_session_pairs"
              output_summary "subject_session_pairs"
  | per_subject =>
      subject_output_summary ← JoinNode SubjectReport subjects ["subjects"]
                                 (name pipeline +:+ "_subject_summary_outputs");
      connect sink "subject_id" subject_output_summary "subjects";;
      connect subject_output_summary "subjects" output_summary "subjects"
  | per_visit =>
      visit_output_summary ← JoinNode VisitReport sessions ["sessions"]
                                 (name pipeline +:+ "_visit_summary_outputs");
      connect sink "visit_id" visit_output_summary "sessions";;
      connect visit_output_summary "sessions" output_summary "visits"
  | per_study =>
      connect sink "project_id" output_summary "project"
  end.

(** *** [_connect_to_repository] *)

(** Modelled from the spec: [Pipeline.__eq__], which is not among the
    sources: two pipelines compare equal when they have the same name and
    the same structure. *)
Section list_eqb.
Context {A : Type} (eqb : A -> A -> bool).
Fixpoint list_eqb (l1 l2 : list A) : bool :=
  match l1, l2 with
  | [], [] => true
  | x :: l1', y :: l2' => eqb x y && list_eqb l1' l2'
  | _, _ => false
  end.
End list_eqb.

#[global] Instance PipelineSpec_eq_dec : EqDecision PipelineSpec.
Proof. solve_decision. Defined.

Fixpoint Pipeline_eqb (a b : Pipeline) {struct a} : bool :=
  bool_decide (name a = name b)
  && bool_decide (inputs a = inputs b)
  && bool_decide (_outputs a = _outputs b)
  && list_eqb Pipeline_eqb (prerequisites a) (prerequisites b)
  && bool_decide (is_connected a = is_connected b).

(** Modelled from the spec: [pipeline.assert_connected()], which is not
    among the sources: a pipeline whose inputs and outputs are not all
    wired fails the check. *)
Definition assert_connected (pipeline : Pipeline) : M unit :=
  if is_connected pipeline then mret tt
  else raise (AssertionError ("'" +:+ name pipeline +:+ "' pipeline is not fully connected")).

(** [self._to_process(pipeline, subject_ids=..., visit_ids=...)], its
    warnings going to the log. *)
Definition to_process (self : BaseProcessor) (pipeline : Pipeline)
  (subject_ids visit_ids : option (list string)) : M (list Session) :=
  logger (_to_process self pipeline subject_ids visit_ids false).1;;
  lift (_to_process self pipeline subject_ids visit_ids false).2.

(** The prerequisite loop (lines 153-169): a prerequisite with nothing to
    run is logged and left out of the reports. *)
Section connect_prerequisites.
Context (connect_prereq : Pipeline -> M Node) (pipeline : Pipeline).
Fixpoint connect_prerequisites (prereqs : list Pipeline) (reports : list Node)
  : M (list Node) :=
  match prereqs with
  | [] => mret reports
  | prereq :: rest =>
      fun s =>
        match connect_prereq prereq s with
        | (s', inr prereq_report) =>
            connect_prerequisites rest (reports ++ [prereq_report]) s'
        | (s', inl e) =>
            if is_no_run_required e
            then
              (logger [Info ("Not running '" +:+ name prereq
                             +:+ "' pipeline as a prerequisite of '"
                             +:+ name pipeline
                             +:+ "' as the required outputs are already present in the repository")];;
               connect_prerequisites rest reports) s'
            else (s', inl e)
        end
  end.
End connect_prerequisites.

(** Lines 173-178: each prerequisite report feeds one input of the merge. *)
Fixpoint connect_reports (prereq_reports : Node) (i : nat) (reports : list Node)
  : M unit :=
  match reports with
  | [] => mret tt
  | report :: rest =>
      connect report "subject_session_pairs" prereq_reports
              ("in" +:+ pretty i);;
      connect_reports prereq_reports (S i) rest
  end.

(** Lines 170-180. *)
Definition join_prerequisites (pipeline : Pipeline) (subjects : Node)
  (reports : list Node) : M unit :=
  match reports with
  | [] => mret tt
  | _ =>
      prereq_reports ← create_node pipeline (Merge (length reports))
                                   "prereq_reports" NoIterables None;
      connect_reports prereq_reports 1 reports;;
      connect prereq_reports "out" subjects "prereq_reports"
  end.

(** Lines 181-189: [self.study.source(pipeline.inputs, name=...)]. *)
Definition study_source (self : BaseProcessor) (pipeline : Pipeline) : M Node :=
  match source_missing (study self) with
  | Some e =>
      raise (ArcanaMissingDataException
               (e +:+ ", which is required for pipeline '" +:+ name pipeline +:+ "'"))
  | None =>
      make_node (name pipeline +:+ "_source") RepositorySource NoIterables None None []
  end.

(** The message appended to a converter error (lines 213-218). *)
Definition required_to_convert (self : BaseProcessor) (pipeline : Pipeline)
  (input_name input_spec_name : string) : string :=
  " required to convert " +:+ input_name +:+ " to " +:+ input_spec_name
  +:+ "  in '" +:+ name pipeline +:+ "' pipeline, in study '"
  +:+ study_name (study self).

(** One turn of the loop over [pipeline.inputs] (lines 202-236); it gives
    back the [input] it resolved. *)
Definition connect_input (self : BaseProcessor) (pipeline : Pipeline)
  (source : Node) (input_spec : PipelineSpec) : M BoundSpec :=
  input ← lift (spec (study self) (ps_name input_spec));
  (if is_fileset input then
     if bool_decide (format input ≠ ps_format input_spec) then
       match converter_from (study self) (ps_format input_spec) (format input) with
       | inl (ArcanaNoConverterError e) =>
           raise (ArcanaNoConverterError
                    (e +:+ required_to_convert self pipeline (bs_name input)
                                               (ps_name input_spec)))
       | inl e => raise e
       | inr converter =>
           fileset_source ← make_node (name pipeline +:+ "_" +:+ ps_name input_spec
                                       +:+ "_input_conversion")
                                      (FormatConverter converter) NoIterables
                                      None None [];
           connect source (bs_name input +:+ PATH_SUFFIX)
                   fileset_source (conv_in_field converter);;
           connect fileset_source (conv_out_field converter)
                   (inputnode (name pipeline)) (ps_name input_spec)
       end
     else
       connect source (bs_name input +:+ PATH_SUFFIX)
               (inputnode (name pipeline)) (ps_name input_spec)
   else
     connect source (bs_name input +:+ FIELD_SUFFIX)
             (inputnode (name pipeline)) (ps_name input_spec));;
  mret input.

(** The loop over [pipeline.inputs]; [last] is what the variables [input]
    and [input_spec] hold, once the loop has run at least one turn. *)
Fixpoint connect_inputs (self : BaseProcessor) (pipeline : Pipeline)
  (source : Node) (input_specs : list PipelineSpec)
  (last : option (BoundSpec * PipelineSpec))
  : M (option (BoundSpec * PipelineSpec)) :=
  match input_specs with
  | [] => mret last
  | input_spec :: rest =>
      input ← connect_input self pipeline source input_spec;
      connect_inputs self pipeline source rest (Some (input, input_spec))
  end.

(** One turn of the loop over the outputs of a frequency (lines 256-294).
    The converter error message reads the variables [input] and [input_spec]
    of the loop over the inputs. *)
Definition connect_output (self : BaseProcessor) (pipeline : Pipeline)
  (sink : Node) (freq : Frequency) (last : option (BoundSpec * PipelineSpec))
  (output_spec : PipelineSpec) : M unit :=
  output ← lift (spec (study self) (ps_name output_spec));
  if is_spec output then
    if is_fileset output then
      if bool_decide (format output ≠ ps_format output_spec) then
        match converter_from (study self) (format output) (ps_format output_spec) with
        | inl (ArcanaNoConverterError e) =>
            match last with
            | Some (input, input_spec) =>
                raise (ArcanaNoConverterError
                         (e +:+ required_to_convert self pipeline (bs_name input)
                                                    (ps_name input_spec)))
            | None =>
                raise (AttributeError
                         "'builtin_function_or_method' object has no attribute 'name'")
            end
        | inl e => raise e
        | inr converter =>
            output_node ← make_node (ps_name output_spec +:+ "_output_conversion")
                                    (FormatConverter converter) NoIterables
                                    None None [];
            connect (_outputnodes (name pipeline) freq) (ps_name output_spec)
                    output_node (conv_in_field converter);;
            connect output_node (conv_out_field converter)
                    sink (bs_name output +:+ PATH_SUFFIX)
        end
      else
        connect (_outputnodes (name pipeline) freq) (bs_name output)
                sink (bs_name output +:+ PATH_SUFFIX)
    else
      connect (_outputnodes (name pipeline) freq) (bs_name output)
              sink (bs_name output +:+ FIELD_SUFFIX)
  else mret tt.

Fixpoint connect_outputs (self : BaseProcessor) (pipeline : Pipeline)
  (sink : Node) (freq : Frequency) (last : option (BoundSpec * PipelineSpec))
  (output_specs : list PipelineSpec) : M unit :=
  match output_specs with
  | [] => mret tt
  | output_spec :: rest =>
      connect_output self pipeline sink freq last output_spec;;
      connect_outputs self pipeline sink freq last rest
  end.

(** The loop over [pipeline._outputs.items()] (lines 242-297). *)
Fixpoint connect_sinks (self : BaseProcessor) (pipeline : Pipeline)
  (report subjects sessions : Node) (last : option (BoundSpec * PipelineSpec))
  (items : list (Frequency * list PipelineSpec)) : M unit :=
  match items with
  | [] => mret tt
  | (freq, outs) :: rest =>
      sink ← make_node (name pipeline +:+ "_" +:+ Frequency_str freq +:+ "_sink")
                       (RepositorySink freq) NoIterables None None [];
      (if bool_decide (freq = per_session ∨ freq = per_subject)
       then connect sessions "subject_id" sink "subject_id" else mret tt);;
      (if bool_decide (freq = per_session ∨ freq = per_visit)
       then connect sessions "visit_id" sink "visit_id" else mret tt);;
      connect_outputs self pipeline sink freq last outs;;
      _connect_to_reports pipeline sink report freq subjects sessions;;
      connect_sinks self pipeline report subjects sessions last rest
  end.

(** Lines 181-300: the source, the inputs, the report, the sinks and the
    registration of the pipeline. *)
Definition connect_source_and_sinks (self : BaseProcessor) (pipeline : Pipeline)
  (subjects sessions : Node) : M Node :=
  source ← study_source self pipeline;
  connect sessions "subject_id" (inputnode (name pipeline)) "subject_id";;
  connect sessions "visit_id" (inputnode (name pipeline)) "visit_id";;
  connect sessions "subject_id" source "subject_id";;
  connect sessions "visit_id" source "visit_id";;
  last ← connect_inputs self pipeline source (inputs pipeline) None;
  report ← create_node pipeline PipelineReport "report" NoIterables None;
  connect_sinks self pipeline report subjects sessions last (_outputs pipeline);;
  register pipeline report;;
  mret report.

(** The message of the name-clash error (lines 124-127); a pipeline is
    printed by its name. *)
Definition name_clash_msg (prev_connected pipeline : Pipeline) : string :=
  "Name clash between " +:+ name prev_connected +:+ " and " +:+ name pipeline
  +:+ " non-matching prerequisite pipelines".

Definition no_run_required_msg (pipeline : Pipeline) : string :=
  "All outputs of '" +:+ name pipeline
  +:+ "' are already present in project repository, skipping".

(** [_connect_to_repository]; the [already_connected] table is that of the
    state (a call without one starts from the empty table). *)
Fixpoint _connect_to_repository (self : BaseProcessor) (pipeline : Pipeline)
  (subject_ids visit_ids : option (list string)) {struct pipeline} : M Node :=
  fun s0 =>
    match already_connected s0 !! name pipeline with
    | Some (prev_connected, report) =>
        if Pipeline_eqb prev_connected pipeline
        then (s0, inr report)
        else (s0, inl (ArcanaError (name_clash_msg prev_connected pipeline)))
    | None =>
        (assert_connected pipeline;;
         sessions_to_process ← to_process self pipeline subject_ids visit_ids;
         match sessions_to_process with
         | [] => raise (ArcanaNoRunRequiredException (no_run_required_msg pipeline))
         | _ =>
             add_nodes pipeline;;
             nodes ← _subject_and_session_iterators pipeline sessions_to_process;
             (match prerequisites pipeline with
              | [] => mret tt
              | prereqs =>
                  let prereq_subject_ids :=
                    elements (list_to_set (subject_id <$> sessions_to_process)
                              : gset string) in
                  let prereq_visit_ids :=
                    elements (list_to_set (visit_id <$> sessions_to_process)
                              : gset string) in
                  reports ← connect_prerequisites
                              (fun prereq =>
                                 _connect_to_repository self prereq
                                   (Some prereq_subject_ids) (Some prereq_visit_ids))
                              pipeline prereqs [];
                  join_prerequisites pipeline nodes.1 reports
              end);;
             connect_source_and_sinks self pipeline nodes.1 nodes.2
         end) s0
    end.

(** [run], up to the call of the workflow engine: every pipeline is
    connected in one workflow with one [already_connected] table. *)
Definition new_workflow : State := mkState 0 [] [] ∅ [].



(** *** Predicates of the specification *)

(** The node an item belongs to, at the frequency of its collection, is a
    node of the tree. *)
Definition item_in_tree (t : Tree) (f : Frequency) (i : Item) : bool :=
  match f with
  | per_session => bool_decide (item_session i ∈ sessions t)
  | per_subject => bool_decide (item_subject_id i ∈ tree_subject_ids t)
  | per_visit => bool_decide (item_visit_id i ∈ tree_visit_ids t)
  | per_study => true
  end.

(** An output name resolves in the study, its items belong to nodes of the
    tree, and a [per_study] collection holds its item. *)
Definition output_well_formed (st : Study) (o : string) : bool :=
  match study_specs st !! o with
  | Some sp =>
      forallb (item_in_tree (tree st) (frequency sp)) (collection sp)
      && bool_decide (frequency sp = per_study -> collection sp ≠ [])
  | None => false
  end.

Definition well_formed (st : Study) (p : Pipeline) : bool :=
  forallb (output_well_formed st) (outputs p).

(** Every declared output has [per_session] frequency. *)
Definition all_outputs_per_session (st : Study) (p : Pipeline) : bool :=
  forallb (fun o => match study_specs st !! o with
                    | Some sp => bool_decide (frequency sp = per_session)
                    | None => false
                    end) (outputs p).

(** A session for which an item of a declared output does not exist, and
    whose ids pass the filters. *)
Definition missing_in_scope (st : Study) (p : Pipeline)
  (subject_ids visit_ids : option (list string)) (s : Session) : Prop :=
  ∃ o sp item,
    o ∈ outputs p ∧ study_specs st !! o = Some sp ∧ item ∈ collection sp
    ∧ item_exists item = false
    ∧ passes subject_ids (item_subject_id item) = true
    ∧ passes visit_ids (item_visit_id item) = true
    ∧ s = item_session item.

(** An item is in scope when it passes the filters that apply at its
    frequency. *)
Definition in_scope (f : Frequency) (subject_ids visit_ids : option (list string))
  (i : Item) : bool :=
  match f with
  | per_session =>
      passes subject_ids (item_subject_id i) && passes visit_ids (item_visit_id i)
  | per_subject => passes subject_ids (item_subject_id i)
  | per_visit => passes visit_ids (item_visit_id i)
  | per_study => true
  end.

(** Every declared output resolves and exists wherever it is in scope (and
    the study-level item of a [per_study] output is there and exists). *)
Definition output_exists_in_scope (st : Study)
  (subject_ids visit_ids : option (list string)) (o : string) : bool :=
  match study_specs st !! o with
  | Some sp =>
      match frequency sp with
      | per_study =>
          match collection sp with
          | item :: _ => item_exists item
          | [] => false
          end
      | f =>
          forallb (fun i => implb (in_scope f subject_ids visit_ids i) (item_exists i))
                  (collection sp)
      end
  | None => false
  end.

Definition outputs_exist_in_scope (st : Study) (p : Pipeline)
  (subject_ids visit_ids : option (list string)) : bool :=
  forallb (output_exists_in_scope st subject_ids visit_ids) (outputs p).

(** The study-level item of a [per_study] output of the pipeline does not
    exist. *)
Definition per_study_item_missing (st : Study) (o : string) : bool :=
  match study_specs st !! o with
  | Some sp =>
      bool_decide (frequency sp = per_study)
      && match collection sp with
         | item :: _ => negb (item_exists item)
         | [] => false
         end
  | None => false
  end.

Definition per_study_output_missing (st : Study) (p : Pipeline) : bool :=
  existsb (per_study_item_missing st) (outputs p).

(** The scope check of [_to_process] passes: no output above per-session
    frequency, or no subject that misses a visit. *)
Definition regular_scope (st : Study) (p : Pipeline) : bool :=
  all_outputs_per_session st p || bool_decide (incomplete_subjects (tree st) = []).

Definition is_warning (r : LogRecord) : bool :=
  match r with Warning _ => true | Info _ => false end.

(** In the sessions, every visit has a session for every subject. *)
Definition rectangular (l : list Session) : Prop :=
  ∀ s v, s ∈ subject_id <$> l -> v ∈ visit_id <$> l -> mkSession s v ∈ l.

(** The text [sub] occurs in [msg]. *)
Definition mentions (msg sub : string) : Prop :=
  ∃ pre post, msg = pre +:+ sub +:+ post.

(** The conversion nodes that feed an edge of the workflow. *)
Definition is_converter (n : Node) : bool :=
  match n with
  | Made o => match interface o with FormatConverter _ => true | _ => false end
  | _ => false
  end.

Definition conversion_edges (es : list Edge) : list Edge :=
  filter (fun e => is_converter (src e)) es.

(** A computation that never signals that no run is required. *)
Definition never_no_run {A : Type} (m : M A) : Prop :=
  ∀ s s' e, m s = (s', inl e) -> is_no_run_required e = false.

(** The state but for its log. *)
Definition same_plan (s s' : State) : Prop :=
  next_serial s' = next_serial s ∧ added s' = added s ∧ edges s' = edges s
  ∧ already_connected s' = already_connected s.

End Processor.

(** ** Scenarios *)

Module Scenarios.
Import Processor.

(** Two subjects by two visits. *)
Definition tree22 : Tree :=
  mkTree [mkSession "1" "1"; mkSession "1" "2"; mkSession "2" "1"; mkSession "2" "2"].

(** Subject [B] has no second visit. *)
Definition tree_irregular : Tree :=
  mkTree [mkSession "A" "V1"; mkSession "A" "V2"; mkSession "B" "V1"].

Definition pipeline_A : Pipeline :=
  mkPipeline "A" [] [(per_session, [mkPipelineSpec "a_out" "nifti"])] [] true.

(** The output of [A] is there for subject 1, visit 2 only. *)
Definition a_out_one_done : BoundSpec :=
  mkBoundSpec "a_out" per_session true "nifti" true
    [mkItem "1" "1" false; mkItem "1" "2" true;
     mkItem "2" "1" false; mkItem "2" "2" false].

Definition a_out_all_done : BoundSpec :=
  mkBoundSpec "a_out" per_session true "nifti" true
    [mkItem "1" "1" true; mkItem "1" "2" true;
     mkItem "2" "1" true; mkItem "2" "2" true].

Definition study_one_done : Study :=
  mkStudy "study" {[ "a_out" := a_out_one_done ]} tree22 ∅ None.

Definition study_all_done : Study :=
  mkStudy "study" {[ "a_out" := a_out_all_done ]} tree22 ∅ None.

Definition processor_of (st : Study) : BaseProcessor :=
  mkBaseProcessor "/work" false st None.

(** A pipeline with one [per_subject] output, on the irregular tree. *)
Definition pipeline_S : Pipeline :=
  mkPipeline "S" [] [(per_subject, [mkPipelineSpec "s_out" "nifti"])] [] true.

Definition s_out_missing : BoundSpec :=
  mkBoundSpec "s_out" per_subject true "nifti" true
    [mkItem "A" "" false; mkItem "B" "" false].

Definition s_out_done : BoundSpec :=
  mkBoundSpec "s_out" per_subject true "nifti" true
    [mkItem "A" "" true; mkItem "B" "" true].

Definition study_irregular_missing : Study :=
  mkStudy "study" {[ "s_out" := s_out_missing ]} tree_irregular ∅ None.

Definition study_irregular_done : Study :=
  mkStudy "study" {[ "s_out" := s_out_done ]} tree_irregular ∅ None.

(** A pipeline with one [per_study] output, whose item is missing. *)
Definition pipeline_P : Pipeline :=
  mkPipeline "P" [] [(per_study, [mkPipelineSpec "p_out" "nifti"])] [] true.

Definition p_out_missing : BoundSpec :=
  mkBoundSpec "p_out" per_study true "nifti" true [mkItem "" "" false].

Definition study_per_study : Study :=
  mkStudy "study" {[ "p_out" := p_out_missing ]} tree22 ∅ None.

Definition study_per_study_irregular : Study :=
  mkStudy "study" {[ "p_out" := p_out_missing ]} tree_irregular ∅ None.

(** A pipeline whose input is stored in another format than it asks for. *)
Definition pipeline_C : Pipeline :=
  mkPipeline "C" [mkPipelineSpec "scan" "2.fmt"]
             [(per_session, [mkPipelineSpec "a_out" "nifti"])] [] true.

Definition scan_stored : BoundSpec :=
  mkBoundSpec "scan" per_session true "1.fmt" false
    [mkItem "1" "1" true; mkItem "1" "2" true;
     mkItem "2" "1" true; mkItem "2" "2" true].

Definition study_no_converter : Study :=
  mkStudy "study" {[ "scan" := scan_stored; "a_out" := a_out_one_done ]}
          tree22 ∅ None.

Definition study_converter : Study :=
  mkStudy "study" {[ "scan" := scan_stored; "a_out" := a_out_one_done ]}
          tree22 {[ ("2.fmt", "1.fmt") := mkConverter "in_file" "out_file" ]} None.

Definition source_C : Node :=
  Made (mkNodeObj 2 "C_source" RepositorySource NoIterables None None []).

(** Subjects [A] and [B] both have visit [V1], only [A] has visit [V2]. *)
Definition sessions_irregular : list Session :=
  [mkSession "A" "V1"; mkSession "A" "V2"; mkSession "B" "V1"].

End Scenarios.

(** ** Further predicates on the processor *)

Module ProcessorMore.
Import Processor.

(** Every declared output resolves and has frequency [f]. *)
Definition all_outputs_at (f : Frequency) (st : Study) (p : Pipeline) : bool :=
  forallb (fun o => match study_specs st !! o with
                    | Some sp => bool_decide (frequency sp = f)
                    | None => false
                    end) (outputs p).

(** The session [s] lies under the node of the item, at frequency [f]; the
    study-level item stands for no session in particular. *)
Definition item_covers (f : Frequency) (i : Item) (s : Session) : bool :=
  match f with
  | per_session => bool_decide (s = item_session i)
  | per_subject => bool_decide (subject_id s = item_subject_id i)
  | per_visit => bool_decide (visit_id s = item_visit_id i)
  | per_study => false
  end.

(** A session of the tree under the node of an item that does not exist
    and is in scope, for one of the outputs [outs]. *)
Definition needs_processing (st : Study) (outs : list string)
  (subject_ids visit_ids : option (list string)) (s : Session) : Prop :=
  s ∈ sessions (tree st)
  ∧ ∃ o sp item,
      o ∈ outs ∧ study_specs st !! o = Some sp ∧ item ∈ collection sp
      ∧ item_exists item = false
      ∧ in_scope (frequency sp) subject_ids visit_ids item = true
      ∧ item_covers (frequency sp) item s = true.

(** The filter [ids] lets through at least what [ids'] lets through. *)
Definition wider (ids ids' : option (list string)) : Prop :=
  ∀ x, passes ids' x = true -> passes ids x = true.

(** The plan of [s'] extends that of [s]: what was connected, added,
    logged or registered is still there, unchanged. *)
Definition extends (s s' : State) : Prop :=
  (next_serial s ≤ next_serial s')%nat
  ∧ added s `prefix_of` added s'
  ∧ edges s `prefix_of` edges s'
  ∧ log s `prefix_of` log s'
  ∧ already_connected s ⊆ already_connected s'.

(** Whatever its outcome, the computation [m] leaves a plan that extends
    the one it started from. *)
Definition only_extends {A : Type} (m : M A) : Prop :=
  ∀ s s' r, m s = (s', r) -> extends s s'.

(** Run from a plan that extends [s0], the computation [m] leaves a plan
    that extends [s0]. *)
Definition keeps (s0 : State) {A : Type} (m : M A) : Prop :=
  ∀ s s' r, extends s0 s -> m s = (s', r) -> extends s0 s'.

(** The number of nodes a frequency adds in [_connect_to_reports]. *)
Definition report_joins (f : Frequency) : nat :=
  match f with
  | per_session => 2
  | per_subject => 1
  | per_visit => 1
  | per_study => 0
  end.




(** The edge ends at the input node of the pipeline named [n]. *)
Definition into_inputnode (n : string) (e : Edge) : bool :=
  match dst e with
  | inputnode m => bool_decide (m = n)
  | _ => false
  end.

(** There is a chain of edges of [es] from one node to another: the engine
    runs the second after the first. *)
Inductive path (es : list Edge) : Node -> Node -> Prop :=
| path_edge e : e ∈ es -> path es (src e) (dst e)
| path_trans a b c : path es a b -> path es b c -> path es a c.

(** The field of the pipeline report that a frequency feeds. *)
Definition report_field (f : Frequency) : string :=
  match f with
  | per_session => "subject_session_pairs"
  | per_subject => "subjects"
  | per_visit => "visits"
  | per_study => "project"
  end.


End ProcessorMore.


(** ** Further scenarios *)

Module ScenariosMore.
Import Processor Scenarios.

(** A pipeline with a per-session and a per-subject output, on the two by
    two tree; the per-subject output exists for subject 1 only. *)
Definition pipeline_M : Pipeline :=
  mkPipeline "M" []
             [(per_session, [mkPipelineSpec "a_out" "nifti"]);
              (per_subject, [mkPipelineSpec "s_out" "nifti"])] [] true.

Definition s_out_one_done : BoundSpec :=
  mkBoundSpec "s_out" per_subject true "nifti" true
    [mkItem "1" "" true; mkItem "2" "" false].

Definition study_mixed : Study :=
  mkStudy "study" {[ "a_out" := a_out_one_done; "s_out" := s_out_one_done ]}
          tree22 ∅ None.

(** The per-subject pipeline [S] on the two by two tree. *)
Definition study_subjects : Study :=
  mkStudy "study" {[ "s_out" := s_out_one_done ]} tree22 ∅ None.

End ScenariosMore.


(** ** The connection context of [arcana/repository/base.py] *)

Module Repository.

(** The calls a repository makes to its own [connect] and [disconnect]
    methods, which subclasses override. *)
Inductive call : Type := Connect | Disconnect.

(** [BaseRepository]: the depth counter set by [__init__] and the calls
    made so far. *)
Record BaseRepository : Type :=
  mkRepository { _connection_depth : Z; calls : list call }.

Definition __init__ : BaseRepository := mkRepository 0 [].

Definition __enter__ (self : BaseRepository) : BaseRepository :=
  let self :=
    if bool_decide (_connection_depth self = 0%Z)
    then mkRepository (_connection_depth self) (calls self ++ [Connect])
    else self in
  mkRepository (_connection_depth self + 1) (calls self).

Definition __exit__ (self : BaseRepository) : BaseRepository :=
  let self := mkRepository (_connection_depth self - 1) (calls self) in
  if bool_decide (_connection_depth self = 0%Z)
  then mkRepository (_connection_depth self) (calls self ++ [Disconnect])
  else self.

(** Entering and leaving [with] blocks on one repository. *)
Inductive event : Type := Enter | Exit.

Definition step (self : BaseRepository) (e : event) : BaseRepository :=
  match e with
  | Enter => __enter__ self
  | Exit => __exit__ self
  end.

Definition run_events (es : list event) (self : BaseRepository) : BaseRepository :=
  foldl step self es.

(** [k] times a connect followed by a disconnect. *)
Definition cycles (k : nat) : list call := mjoin (replicate k [Connect; Disconnect]).

(** [n] [with] blocks one after the other. *)
Definition blocks (n : nat) : list event := mjoin (replicate n [Enter; Exit]).

End Repository.


(** ** The study of [arcana/study/base.py] *)

Module ArcanaStudy.

Inductive exn : Type :=
| ArcanaNameError (name : string)
| ArcanaMissingDataException (name : string).

(** A data spec of the study class: [default] tells whether the spec has a
    default value. *)
Record DataSpec : Type :=
  mkDataSpec { name : string; derived : bool; default : option string }.

Section Bound.

(** What [bound_spec] returns, an input or a spec bound to the study, is
    kept as a type [Bound]; [bind] stands for [spec.bind(self)], whose
    result is only stored and returned. *)
Context {Bound : Type}.

(** The attributes of a study that [bound_spec] reads and writes: the specs
    of its class, its inputs and the cache of bound specs. *)
Record Study : Type :=
  mkStudy {
      _data_specs : gmap string DataSpec;
      _inputs : gmap string Bound;
      _bound_specs : gmap string Bound
    }.

Variable bind : DataSpec -> Study -> Bound.

(** [Study.data_spec] *)
Definition data_spec (self : Study) (n : string) : exn + DataSpec :=
  match _data_specs self !! n with
  | Some spec => inr spec
  | None => inl (ArcanaNameError n)
  end.

(** [Study.bound_spec]: the result and the study with its cache. *)
Definition bound_spec (self : Study) (n : string) : (exn + Bound) * Study :=
  match data_spec self n with
  | inl e => (inl e, self)
  | inr spec =>
      match _inputs self !! n with
      | Some bound => (inr bound, self)
      | None =>
          if negb (derived spec) && bool_decide (default spec = None)
          then (inl (ArcanaMissingDataException n), self)
          else
            match _bound_specs self !! n with
            | Some bound => (inr bound, self)
            | None =>
                let bound := bind spec self in
                (inr bound,
                 mkStudy (_data_specs self) (_inputs self)
                         (<[n := bound]> (_bound_specs self)))
            end
      end
  end.

End Bound.

Arguments Study : clear implicits.

(** [dict.update((d.name, d) for d in specs)] *)
Definition update (m : gmap string DataSpec) (specs : list DataSpec)
  : gmap string DataSpec :=
  foldl (fun m d => <[name d := d]> m) m specs.

(** [StudyMetaClass.__new__], lines 786-803: the data specs of the bases,
    taken from the last base to the first, then those the class adds. A
    base without data specs (the lookup raises [AttributeError]) is [None]
    and is passed over. *)
Definition combined_data_specs (bases : list (option (list DataSpec)))
  (add_data_specs : list DataSpec) : gmap string DataSpec :=
  update (foldl (fun m base => match base with
                               | Some specs => update m specs
                               | None => m
                               end) ∅ (reverse bases))
         add_data_specs.

(** The last spec of a list that has the name [n]. *)
Definition last_named (n : string) (specs : list DataSpec) : option DataSpec :=
  last (filter (fun d => name d = n) specs).

(** The spec that carries the name [n] in the first base, from the left,
    that has one. *)
Fixpoint from_bases (n : string) (bases : list (option (list DataSpec)))
  : option DataSpec :=
  match bases with
  | [] => None
  | base :: rest =>
      match base ≫= last_named n with
      | Some d => Some d
      | None => from_bases n rest
      end
  end.

End ArcanaStudy.

(** ** The asset ids of [mbi_pipelines/archive/daris.py] *)

Module Daris.

Inductive exn : Type := AssertionError.

(** The loop of [construct_cid] over the ids that follow the project id;
    the ids are integers ([int(id_)] is taken of each). *)
Fixpoint add_ids (cid : string) (ids : list (option Z)) : exn + string :=
  match ids with
  | [] => inr cid
  | Some id :: rest => add_ids (cid +:+ "." +:+ pretty id) rest
  | None :: rest =>
      if existsb (fun d => bool_decide (d ≠ None)) rest
      then inl AssertionError
      else inr cid
  end.

Definition construct_cid (project_id : Z)
  (subject_id study_id processed file_id : option Z) (repo_id : Z) : exn + string :=
  add_ids ("1008." +:+ pretty repo_id +:+ "." +:+ pretty project_id)
          [subject_id; study_id; processed; file_id].

(** The ids given before the first one left out. *)
Fixpoint leading (ids : list (option Z)) : list Z :=
  match ids with
  | Some id :: rest => id :: leading rest
  | _ => []
  end.

(** An id is given after one that is left out. *)
Fixpoint has_gap (ids : list (option Z)) : bool :=
  match ids with
  | [] => false
  | Some _ :: rest => has_gap rest
  | None :: rest => existsb (fun d => bool_decide (d ≠ None)) rest
  end.

(** [cid] followed by a dot and the number, for each of the numbers. *)
Definition dotted (cid : string) (ids : list Z) : string :=
  foldl (fun c id => c +:+ "." +:+ pretty id) cid ids.

End Daris.


(** ** Equality of the tree snapshot classes *)

Module ArchiveFacts.
Import Archive.

(** C10: for every visit [v], [v == x] is [False] whenever [x] is a visit,
    [v] itself included, so [v != v] is [True]: equality on visits is not
    reflexive. *)
Theorem Visit_eq_never_holds (v x : Visit) :
  Visit__eq__ v (VVisit x) = false
  ∧ Visit__eq__ v (VVisit v) = false
  ∧ Visit__ne__ v (VVisit v) = true.
Proof. by rewrite /Visit__ne__ /Visit__eq__ /=. Qed.

(** A visit compares equal to a subject that has its id and content. *)
Lemma Visit_eq_Subject_example :
  Visit__eq__ (mkVisit "1" [] [] []) (VSubject (mkSubject "1" [] [] [])) = true.
Proof. reflexivity. Qed.

End ArchiveFacts.

(** ** The sessions to process *)

Module ToProcessFacts.
Import Processor Scenarios.

Lemma to_process_reprocess_fails self p sids vids :
  ∃ e, (_to_process self p sids vids true).2 = inl e.
Proof.
  rewrite /_to_process.
  destruct (non_per_session_outputs _ _) as [e|nps]; [by eexists|].
  case_match; [|by eexists].
  destruct (BaseProcessor_name self); by eexists.
Qed.

(** C3: with [reprocess=True] the call does not return the sessions of the
    tree: past the scope check it stops on [sessions.extend], which a set
    does not have; here on the two by two tree. *)
Theorem to_process_reprocess_raises :
  _to_process (processor_of study_one_done) pipeline_A None None true
  = ([], inl (AttributeError "'set' object has no attribute 'extend'")).
Proof. reflexivity. Qed.

Lemma to_process_irregular_no_name self p sids vids reprocess nps :
  non_per_session_outputs (study self) (outputs p) = inr nps ->
  nps ≠ [] ->
  incomplete_subjects (tree (study self)) ≠ [] ->
  (_to_process self p sids vids reprocess).2
  = match proc_name self with
    | None => inl (AttributeError "object has no attribute 'name'")
    | Some n =>
        inl (ArcanaUsageError (irregular_scope_msg n nps (tree (study self))))
    end.
Proof.
  intros Hnps Hne Hinc. rewrite /_to_process Hnps.
  rewrite !bool_decide_eq_true_2 //= /BaseProcessor_name.
  by destruct (proc_name self).
Qed.

(** C7: a [per_subject] output on a tree where subject [B] misses a visit:
    the call stops on [self.name] while it builds the message of the usage
    error, so what is raised is an attribute error. *)
Theorem to_process_irregular_raises_attribute_error :
  incomplete_subjects tree_irregular = ["B"]
  ∧ _to_process (processor_of study_irregular_missing) pipeline_S None None false
    = ([], inl (AttributeError "object has no attribute 'name'")).
Proof. split; vm_compute; reflexivity. Qed.

(** *** Outputs of per-session frequency *)

Lemma spec_lookup st o sp : study_specs st !! o = Some sp -> spec st o = inr sp.
Proof. rewrite /spec. by intros ->. Qed.

Lemma non_per_session_outputs_nil st outs :
  forallb (fun o => match study_specs st !! o with
                    | Some sp => bool_decide (frequency sp = per_session)
                    | None => false
                    end) outs = true ->
  non_per_session_outputs st outs = inr [].
Proof.
  induction outs as [|o outs IH]; simpl; [done|].
  intros [Ho Houts]%andb_true_iff. rewrite /spec.
  destruct (study_specs st !! o) as [sp|]; [|done].
  apply bool_decide_eq_true in Ho. rewrite (IH Houts).
  by rewrite bool_decide_eq_false_2; [rewrite Ho; auto|].
Qed.

Lemma add_per_session_spec t sids vids items acc :
  forallb (item_in_tree t per_session) items = true ->
  ∃ acc', add_per_session t sids vids items acc = inr acc'
    ∧ ∀ s, s ∈ acc' ↔
           s ∈ acc ∨ ∃ item, item ∈ items ∧ item_exists item = false
                             ∧ passes sids (item_subject_id item) = true
                             ∧ passes vids (item_visit_id item) = true
                             ∧ s = item_session item.
Proof.
  revert acc. induction items as [|item items IH]; intros acc; simpl.
  - intros _. exists acc. split; [done|]. intros s. split; [by left|].
    intros [?|(i & Hi & _)]; [done|]. by apply elem_of_nil in Hi.
  - intros [Hitem Hitems]%andb_true_iff.
    destruct (negb (item_exists item) && passes sids (item_subject_id item)
              && passes vids (item_visit_id item)) eqn:Hc.
    + rewrite /Tree_session.
      rewrite /item_in_tree /item_session in Hitem. rewrite Hitem.
      destruct (IH (acc ∪ {[ mkSession (item_subject_id item) (item_visit_id item) ]})
                  Hitems) as (acc' & -> & Hacc').
      exists acc'. split; [done|]. intros s. rewrite Hacc'.
      apply andb_true_iff in Hc as [[Hex Hs]%andb_true_iff Hv].
      apply negb_true_iff in Hex.
      rewrite elem_of_union elem_of_singleton. split.
      * intros [[?| ->]|(i & Hi & ?)]; [by left| |].
        -- right. exists item. split; [by left|done].
        -- right. exists i. split; [by right|done].
      * intros [?|(i & Hi & Hex' & Hs' & Hv' & ->)]; [by left; left|].
        apply elem_of_cons in Hi as [-> |Hi]; [by left; right|].
        right. by exists i.
    + destruct (IH acc Hitems) as (acc' & -> & Hacc').
      exists acc'. split; [done|]. intros s. rewrite Hacc'. split.
      * intros [?|(i & Hi & ?)]; [by left|]. right. exists i. split; [by right|done].
      * intros [?|(i & Hi & Hex' & Hs' & Hv' & ->)]; [by left|].
        apply elem_of_cons in Hi as [-> |Hi]; [|right; by exists i].
        rewrite Hs' Hv' Hex' in Hc. done.
Qed.

Lemma to_process_loop_per_session st pn sids vids outs acc lg :
  forallb (fun o => match study_specs st !! o with
                    | Some sp => bool_decide (frequency sp = per_session)
                    | None => false
                    end) outs = true ->
  forallb (output_well_formed st) outs = true ->
  ∃ acc' : gset Session,
    to_process_loop st pn sids vids outs acc lg = (lg, inr (elements acc'))
    ∧ ∀ s, s ∈ acc' ↔
           s ∈ acc ∨ ∃ o sp item,
                       o ∈ outs ∧ study_specs st !! o = Some sp
                       ∧ item ∈ collection sp ∧ item_exists item = false
                       ∧ passes sids (item_subject_id item) = true
                       ∧ passes vids (item_visit_id item) = true
                       ∧ s = item_session item.
Proof.
  revert acc. induction outs as [|o outs IH]; intros acc; simpl.
  - intros _ _. exists acc. split; [done|]. intros s. split; [by left|].
    intros [?|(o & ? & ? & Ho & _)]; [done|]. by apply elem_of_nil in Ho.
  - intros [Ho Houts]%andb_true_iff [Hwf Hwfs]%andb_true_iff.
    rewrite /output_well_formed in Hwf. rewrite /spec.
    destruct (study_specs st !! o) as [sp|] eqn:Hsp; [|done].
    apply bool_decide_eq_true in Ho. rewrite Ho in Hwf |- *.
    apply andb_true_iff in Hwf as [Hitems _].
    destruct (add_per_session_spec (tree st) sids vids (collection sp) acc Hitems)
      as (acc1 & -> & Hacc1).
    destruct (IH acc1 Houts Hwfs) as (acc' & -> & Hacc').
    exists acc'. split; [done|]. intros s. rewrite Hacc' Hacc1. split.
    + intros [[?|(i & Hi & ?)]|(o' & sp' & i & Ho' & ?)]; [by left| |].
      * right. exists o, sp, i. split; [by left|done].
      * right. exists o', sp', i. split; [by right|done].
    + intros [?|(o' & sp' & i & Ho' & Hsp' & Hi & Hrest)]; [by left; left|].
      apply elem_of_cons in Ho' as [-> |Ho'].
      * rewrite Hsp in Hsp'. injection Hsp' as <-. left; right. by exists i.
      * right. by exists o', sp', i.
Qed.

(** C1: when every declared output has per-session frequency,
    [_to_process] with [reprocess] left [False] returns, each once, exactly
    the sessions for which an item of some declared output does not exist
    and whose subject and visit ids pass the filters ([None] passes
    everything). *)
Theorem to_process_per_session self p sids vids :
  all_outputs_per_session (study self) p = true ->
  well_formed (study self) p = true ->
  ∃ l, _to_process self p sids vids false = ([], inr l)
       ∧ NoDup l
       ∧ ∀ s, s ∈ l ↔ missing_in_scope (study self) p sids vids s.
Proof.
  intros Hps Hwf. rewrite /_to_process.
  rewrite (non_per_session_outputs_nil _ _ Hps) /=.
  destruct (to_process_loop_per_session (study self) (name p) sids vids
              (outputs p) ∅ [] Hps Hwf) as (acc & -> & Hacc).
  exists (elements acc). split; [done|]. split; [apply NoDup_elements|].
  intros s. rewrite elem_of_elements Hacc /missing_in_scope. split.
  - intros [H|H]; [by apply not_elem_of_empty in H|done].
  - by right.
Qed.

(** The two by two tree where only subject 1, visit 2 has the output: the
    other three sessions are returned. *)
Lemma to_process_per_session_witness :
  ∃ l, _to_process (processor_of study_one_done) pipeline_A None None false
       = ([], inr l)
       ∧ NoDup l
       ∧ ∀ s, s ∈ l ↔ missing_in_scope study_one_done pipeline_A None None s.
Proof. apply (to_process_per_session (processor_of study_one_done) pipeline_A); reflexivity. Defined.

Lemma to_process_two_by_two :
  _to_process (processor_of study_one_done) pipeline_A None None false
  = ([], inr [mkSession "1" "1"; mkSession "2" "1"; mkSession "2" "2"]).
Proof. vm_compute. reflexivity. Qed.

(** *** Outputs of the other frequencies *)

Lemma non_per_session_outputs_resolve st outs :
  forallb (output_well_formed st) outs = true ->
  ∃ nps, non_per_session_outputs st outs = inr nps.
Proof.
  induction outs as [|o outs IH]; simpl; [by eexists|].
  intros [Ho Houts]%andb_true_iff. rewrite /output_well_formed in Ho.
  rewrite /spec. destruct (study_specs st !! o) as [sp|]; [|done].
  destruct (IH Houts) as [nps ->]. by eexists.
Qed.

Lemma update_per_subject_ok t sids items acc :
  forallb (item_in_tree t per_subject) items = true ->
  ∃ acc', update_per_subject t sids items acc = inr acc'.
Proof.
  revert acc. induction items as [|item items IH]; intros acc; simpl;
    [by eexists|].
  intros [Hitem Hitems]%andb_true_iff.
  case_match; [|by apply IH].
  rewrite /Tree_subject_sessions. simpl in Hitem. rewrite Hitem. by apply IH.
Qed.

Lemma update_per_visit_ok t vids items acc :
  forallb (item_in_tree t per_visit) items = true ->
  ∃ acc', update_per_visit t vids items acc = inr acc'.
Proof.
  revert acc. induction items as [|item items IH]; intros acc; simpl;
    [by eexists|].
  intros [Hitem Hitems]%andb_true_iff.
  case_match; [|by apply IH].
  rewrite /Tree_visit_sessions. simpl in Hitem. rewrite Hitem. by apply IH.
Qed.

Lemma cannot_restrict_warning what ids pn f o :
  ids ≠ None -> ∃ msg, cannot_restrict what ids pn f o = [Warning msg].
Proof. destruct ids; [by eexists|done]. Qed.

Lemma cannot_restrict_is_warning what ids pn f o :
  forallb is_warning (cannot_restrict what ids pn f o) = true.
Proof. by destruct ids. Qed.

Lemma to_process_loop_per_study_missing st pn sids vids outs acc lg :
  forallb (output_well_formed st) outs = true ->
  existsb (per_study_item_missing st) outs = true ->
  ∃ lg', to_process_loop st pn sids vids outs acc lg
         = (lg ++ lg', inr (sessions (tree st)))
         ∧ forallb is_warning lg' = true
         ∧ (sids ≠ None ∨ vids ≠ None -> lg' ≠ []).
Proof.
  revert acc lg. induction outs as [|o outs IH]; intros acc lg; simpl; [done|].
  intros [Hwf Hwfs]%andb_true_iff Hex.
  rewrite /output_well_formed in Hwf. rewrite /spec.
  rewrite {1}/per_study_item_missing in Hex.
  destruct (study_specs st !! o) as [sp|] eqn:Hsp; [|done].
  apply andb_true_iff in Hwf as [Hitems Hne].
  destruct (frequency sp) eqn:Hf; simpl in Hex.
  - destruct (add_per_session_spec (tree st) sids vids (collection sp) acc Hitems)
      as (acc1 & -> & _).
    by apply IH.
  - destruct (update_per_subject_ok (tree st) sids (collection sp) acc Hitems)
      as (acc1 & ->).
    destruct (IH acc1 (lg ++ cannot_restrict "visit" vids pn "per_subject" o)
                Hwfs Hex) as (lg' & -> & Hw & Hn).
    exists (cannot_restrict "visit" vids pn "per_subject" o ++ lg').
    rewrite assoc. split; [done|]. split.
    + by rewrite forallb_app cannot_restrict_is_warning.
    + intros H. specialize (Hn H). by destruct (cannot_restrict _ _ _ _ _), lg'.
  - destruct (update_per_visit_ok (tree st) vids (collection sp) acc Hitems)
      as (acc1 & ->).
    destruct (IH acc1 (lg ++ cannot_restrict "subject" sids pn "per_visit" o)
                Hwfs Hex) as (lg' & -> & Hw & Hn).
    exists (cannot_restrict "subject" sids pn "per_visit" o ++ lg').
    rewrite assoc. split; [done|]. split.
    + by rewrite forallb_app cannot_restrict_is_warning.
    + intros H. specialize (Hn H). by destruct (cannot_restrict _ _ _ _ _), lg'.
  - apply bool_decide_eq_true in Hne. specialize (Hne eq_refl).
    destruct (collection sp) as [|item items]; [done|].
    set (w := cannot_restrict "subject" sids pn "per_study" o
              ++ cannot_restrict "visit" vids pn "per_study" o).
    assert (Hww : forallb is_warning w = true).
    { by rewrite /w forallb_app !cannot_restrict_is_warning. }
    assert (Hwn : sids ≠ None ∨ vids ≠ None -> w ≠ []).
    { rewrite /w. intros [H|H].
      - destruct (cannot_restrict_warning "subject" sids pn "per_study" o H)
          as [m ->]. done.
      - destruct (cannot_restrict_warning "visit" vids pn "per_study" o H)
          as [m ->]. by destruct (cannot_restrict _ _ _ _ _). }
    change (cannot_restrict "subject" sids pn "per_study" o
            ++ cannot_restrict "visit" vids pn "per_study" o) with w.
    destruct (item_exists item) eqn:Hit; simpl in *.
    + destruct (IH acc (lg ++ w) Hwfs Hex) as (lg' & -> & Hw & Hn).
      exists (w ++ lg'). rewrite assoc. split; [done|]. split.
      * by rewrite forallb_app Hww.
      * intros H. specialize (Hwn H). by destruct w.
    + by exists w.
Qed.

(** C5, amended: on a tree where no subject misses a visit, a pipeline with
    a [per_study] output whose study-level item does not exist has every
    session of the tree returned, whatever the subject and visit filters;
    a filter only leaves warnings in the log. *)
Theorem to_process_per_study_missing self p sids vids :
  well_formed (study self) p = true ->
  incomplete_subjects (tree (study self)) = [] ->
  per_study_output_missing (study self) p = true ->
  ∃ lg, _to_process self p sids vids false
        = (lg, inr (sessions (tree (study self))))
        ∧ forallb is_warning lg = true
        ∧ (sids ≠ None ∨ vids ≠ None -> lg ≠ []).
Proof.
  intros Hwf Hinc Hmiss. rewrite /_to_process.
  destruct (non_per_session_outputs_resolve _ _ Hwf) as [nps ->].
  rewrite Hinc (bool_decide_eq_false_2 ([] ≠ [])); [by auto|].
  rewrite andb_false_r.
  destruct (to_process_loop_per_study_missing (study self) (name p) sids vids
              (outputs p) ∅ [] Hwf Hmiss) as (lg & -> & Hw & Hn).
  by exists lg.
Qed.

Lemma to_process_per_study_missing_witness :
  ∃ lg, _to_process (processor_of study_per_study) pipeline_P
                    (Some ["1"]) (Some ["2"]) false
        = (lg, inr (sessions tree22))
        ∧ forallb is_warning lg = true
        ∧ (Some ["1"] ≠ None ∨ Some ["2"] ≠ None -> lg ≠ []).
Proof.
  apply (to_process_per_study_missing (processor_of study_per_study) pipeline_P
           (Some ["1"]) (Some ["2"])); reflexivity.
Defined.

(** C5 as stated fails: with a [per_study] item missing on a tree where a
    subject misses a visit, no session is returned, with or without a
    [name] on the processor. *)
Lemma to_process_per_study_missing_irregular :
  per_study_output_missing study_per_study_irregular pipeline_P = true
  ∧ (_to_process (processor_of study_per_study_irregular) pipeline_P
                 None None false).2
    = inl (AttributeError "object has no attribute 'name'")
  ∧ ∃ msg,
      (_to_process (mkBaseProcessor "/work" false study_per_study_irregular
                                    (Some "linear"))
                   pipeline_P None None false).2
      = inl (ArcanaUsageError msg).
Proof. split; [reflexivity|]. split; [reflexivity|]. eexists. vm_compute. reflexivity. Qed.

(** *** Outputs that all exist *)

Lemma non_per_session_outputs_exist st sids vids outs :
  forallb (output_exists_in_scope st sids vids) outs = true ->
  ∃ nps, non_per_session_outputs st outs = inr nps.
Proof.
  induction outs as [|o outs IH]; simpl; [by eexists|].
  intros [Ho Houts]%andb_true_iff. rewrite /output_exists_in_scope in Ho.
  rewrite /spec. destruct (study_specs st !! o) as [sp|]; [|done].
  destruct (IH Houts) as [nps ->]. by eexists.
Qed.

Lemma update_per_subject_exist t sids vids items acc :
  forallb (fun i => implb (in_scope per_subject sids vids i) (item_exists i)) items
  = true ->
  update_per_subject t sids items acc = inr acc.
Proof.
  induction items as [|i items IH]; simpl; [done|].
  intros [Hi Hitems]%andb_true_iff.
  destruct (item_exists i), (passes sids (item_subject_id i)); simpl in *;
    by try apply IH.
Qed.

Lemma update_per_visit_exist t sids vids items acc :
  forallb (fun i => implb (in_scope per_visit sids vids i) (item_exists i)) items
  = true ->
  update_per_visit t vids items acc = inr acc.
Proof.
  induction items as [|i items IH]; simpl; [done|].
  intros [Hi Hitems]%andb_true_iff.
  destruct (item_exists i), (passes vids (item_visit_id i)); simpl in *;
    by try apply IH.
Qed.

Lemma add_per_session_exist t sids vids items acc :
  forallb (fun i => implb (in_scope per_session sids vids i) (item_exists i)) items
  = true ->
  add_per_session t sids vids items acc = inr acc.
Proof.
  induction items as [|i items IH]; simpl; [done|].
  intros [Hi Hitems]%andb_true_iff.
  destruct (item_exists i), (passes sids (item_subject_id i)),
    (passes vids (item_visit_id i)); simpl in *; by try apply IH.
Qed.

Lemma to_process_loop_exist st pn sids vids outs acc lg :
  forallb (output_exists_in_scope st sids vids) outs = true ->
  ∃ lg', to_process_loop st pn sids vids outs acc lg = (lg', inr (elements acc)).
Proof.
  revert lg. induction outs as [|o outs IH]; intros lg; simpl; [by eexists|].
  intros [Ho Houts]%andb_true_iff. rewrite /output_exists_in_scope in Ho.
  rewrite /spec. destruct (study_specs st !! o) as [sp|]; [|done].
  destruct (frequency sp).
  - rewrite (add_per_session_exist _ _ _ _ _ Ho). by apply IH.
  - rewrite (update_per_subject_exist _ _ _ _ _ Ho). by apply IH.
  - rewrite (update_per_visit_exist _ _ _ _ _ Ho). by apply IH.
  - destruct (collection sp) as [|i items]; [done|]. rewrite Ho /=. by apply IH.
Qed.

Lemma to_process_all_exist self p sids vids :
  outputs_exist_in_scope (study self) p sids vids = true ->
  regular_scope (study self) p = true ->
  ∃ lg, _to_process self p sids vids false = (lg, inr []).
Proof.
  intros Hex Hreg. rewrite /_to_process.
  destruct (non_per_session_outputs_exist _ _ _ _ Hex) as [nps Hnps].
  assert (bool_decide (nps ≠ [])
          && bool_decide (incomplete_subjects (tree (study self)) ≠ []) = false)
    as Hguard.
  { apply orb_true_iff in Hreg as [Hps|Hinc].
    - rewrite (non_per_session_outputs_nil _ _ Hps) in Hnps. injection Hnps as <-.
      by rewrite bool_decide_eq_false_2; [auto|].
    - apply bool_decide_eq_true in Hinc. rewrite Hinc.
      rewrite (bool_decide_eq_false_2 ([] ≠ [])); [by auto|].
      by rewrite andb_false_r. }
  rewrite Hnps Hguard.
  destruct (to_process_loop_exist (study self) (name p) sids vids (outputs p)
              ∅ [] Hex) as [lg ->].
  exists lg. by rewrite elements_empty.
Qed.

End ToProcessFacts.

(** ** Connecting a pipeline to the repository *)

Module ConnectFacts.
Import Processor Scenarios.

(** *** The state and exception monad *)

Lemma bind_inr {A B : Type} (m : M A) (k : A -> M B) s s' b :
  (m ≫= k) s = (s', inr b) ->
  ∃ a s1, m s = (s1, inr a) ∧ k a s1 = (s', inr b).
Proof.
  rewrite /mbind /M_bind. destruct (m s) as [s1 [e|a]]; [done|]. by exists a, s1.
Qed.


Lemma bind_run {A B : Type} (m : M A) (k : A -> M B) s s1 a :
  m s = (s1, inr a) -> (m ≫= k) s = k a s1.
Proof. rewrite /mbind /M_bind. by intros ->. Qed.

Lemma bind_raise {A B : Type} (m : M A) (k : A -> M B) s s1 e :
  m s = (s1, inl e) -> (m ≫= k) s = (s1, inl e).
Proof. rewrite /mbind /M_bind. by intros ->. Qed.

(** *** Unfolding [_connect_to_repository] *)

Lemma connect_already_connected self p sids vids s prev report :
  already_connected s !! name p = Some (prev, report) ->
  _connect_to_repository self p sids vids s
  = if Pipeline_eqb prev p then (s, inr report)
    else (s, inl (ArcanaError (name_clash_msg prev p))).
Proof. intros H. destruct p. simpl in *. by rewrite H. Qed.

Lemma connect_not_yet_connected self p sids vids s :
  already_connected s !! name p = None ->
  _connect_to_repository self p sids vids s
  = (assert_connected p;;
     sessions_to_process ← to_process self p sids vids;
     match sessions_to_process with
     | [] => raise (ArcanaNoRunRequiredException (no_run_required_msg p))
     | _ =>
         add_nodes p;;
         nodes ← _subject_and_session_iterators p sessions_to_process;
         (match prerequisites p with
          | [] => mret tt
          | prereqs =>
              reports ← connect_prerequisites
                          (fun prereq =>
                             _connect_to_repository self prereq
                               (Some (elements (list_to_set
                                                  (subject_id <$> sessions_to_process)
                                                : gset string)))
                               (Some (elements (list_to_set
                                                  (visit_id <$> sessions_to_process)
                                                : gset string))))
                          p prereqs [];
              join_prerequisites p nodes.1 reports
          end);;
         connect_source_and_sinks self p nodes.1 nodes.2
     end) s.
Proof. intros H. destruct p. simpl in *. by rewrite H. Qed.

(** *** No step but the explicit one signals that no run is required *)

Lemma nnr_ret {A : Type} (a : A) : never_no_run (mret a).
Proof. by intros s s' e. Qed.



Lemma nnr_lift {A : Type} (r : exn + A) :
  (∀ e, r = inl e -> is_no_run_required e = false) -> never_no_run (lift r).
Proof. intros Hr s s' e [= _ ->]. by apply Hr. Qed.

Lemma nnr_connect a af b bf : never_no_run (connect a af b bf).
Proof. by intros s s' e. Qed.

Lemma nnr_make_node nm i it sr js jf : never_no_run (make_node nm i it sr js jf).
Proof. by intros s s' e. Qed.

Lemma nnr_logger records : never_no_run (logger records).
Proof. by intros s s' e. Qed.

Lemma nnr_add_nodes p : never_no_run (add_nodes p).
Proof. by intros s s' e. Qed.

Lemma nnr_register p r : never_no_run (register p r).
Proof. by intros s s' e. Qed.

Lemma nnr_spec st o : never_no_run (lift (spec st o)).
Proof.
  apply nnr_lift. rewrite /spec. intros e.
  destruct (study_specs st !! o); [done|]. by intros [= <-].
Qed.


Create HintDb nnr.

#[local] Hint Resolve nnr_ret nnr_connect nnr_make_node nnr_logger nnr_add_nodes
  nnr_register nnr_spec : nnr.























(** *** Nothing to run *)

Lemma to_process_run self p sids vids s :
  to_process self p sids vids s
  = (mkState (next_serial s) (added s) (edges s) (already_connected s)
             (log s ++ (_to_process self p sids vids false).1),
     (_to_process self p sids vids false).2).
Proof. reflexivity. Qed.




(** C4, amended: for a pipeline that passes [assert_connected], is not yet
    in the [already_connected] table and passes the scope check of
    [_to_process] (all outputs per-session, or no subject missing a visit),
    if every declared output exists wherever it is in scope then
    [_to_process] returns no session and [_connect_to_repository] signals
    that no run is required, with the workflow and the table as they were
    before the call. *)
Theorem connect_no_run_required self p sids vids s :
  outputs_exist_in_scope (study self) p sids vids = true ->
  regular_scope (study self) p = true ->
  is_connected p = true ->
  already_connected s !! name p = None ->
  ∃ lg s',
    _to_process self p sids vids false = (lg, inr [])
    ∧ _connect_to_repository self p sids vids s
      = (s', inl (ArcanaNoRunRequiredException (no_run_required_msg p)))
    ∧ same_plan s s' ∧ log s' = log s ++ lg.
Proof.
  intros Hex Hreg Hconn Hp.
  destruct (ToProcessFacts.to_process_all_exist self p sids vids Hex Hreg)
    as [lg Hlg].
  exists lg, (mkState (next_serial s) (added s) (edges s) (already_connected s)
                      (log s ++ lg)).
  split; [done|]. split; [|done].
  rewrite (connect_not_yet_connected _ _ _ _ _ Hp).
  rewrite /assert_connected Hconn.
  rewrite (bind_run _ _ s s tt); [done|].
  rewrite (bind_run _ _ s (mkState (next_serial s) (added s) (edges s)
                                   (already_connected s) (log s ++ lg)) []);
    [by rewrite to_process_run Hlg|done].
Qed.

Lemma connect_no_run_required_witness :
  ∃ lg s',
    _to_process (processor_of study_all_done) pipeline_A None None false
    = (lg, inr [])
    ∧ _connect_to_repository (processor_of study_all_done) pipeline_A None None
                             new_workflow
      = (s', inl (ArcanaNoRunRequiredException (no_run_required_msg pipeline_A)))
    ∧ same_plan new_workflow s' ∧ log s' = log new_workflow ++ lg.
Proof.
  apply (connect_no_run_required (processor_of study_all_done) pipeline_A
           None None new_workflow); reflexivity.
Defined.

(** C4 as stated fails: the [per_subject] output of [S] exists for both
    subjects, but subject [B] misses a visit, so [_to_process] returns no
    session set and the connection fails with another exception, with or
    without a [name] on the processor. *)
Lemma connect_all_exist_irregular :
  outputs_exist_in_scope study_irregular_done pipeline_S None None = true
  ∧ _to_process (processor_of study_irregular_done) pipeline_S None None false
    = ([], inl (AttributeError "object has no attribute 'name'"))
  ∧ _connect_to_repository (processor_of study_irregular_done) pipeline_S
                           None None new_workflow
    = (new_workflow, inl (AttributeError "object has no attribute 'name'"))
  ∧ ∃ msg,
      _connect_to_repository
        (mkBaseProcessor "/work" false study_irregular_done (Some "linear"))
        pipeline_S None None new_workflow
      = (new_workflow, inl (ArcanaUsageError msg)).
Proof.
  split; [reflexivity|]. split; [reflexivity|]. split; [reflexivity|].
  eexists. vm_compute. reflexivity.
Qed.

(** *** Connecting twice *)

Lemma Pipeline_eqb_refl : ∀ p, Pipeline_eqb p p = true.
Proof.
  fix IH 1. intros [n i o ps c]. simpl.
  rewrite !bool_decide_eq_true_2 //=. rewrite andb_true_r.
  induction ps as [|q ps IHps]; simpl; [done|]. by rewrite IH IHps.
Qed.

Lemma connect_source_and_sinks_registers self p subjects sessions s s' report :
  connect_source_and_sinks self p subjects sessions s = (s', inr report) ->
  already_connected s' !! name p = Some (p, report).
Proof.
  rewrite /connect_source_and_sinks. intros H.
  repeat (apply bind_inr in H as (? & ? & ? & H)).
  injection H as <- <-.
  match goal with
  | Hr : register _ _ _ = _ |- _ => rewrite /register in Hr; injection Hr as <-
  end.
  apply lookup_insert_eq.
Qed.

(** C2: once a call of [_connect_to_repository] for [p] has returned a
    report, the table holds, under [p.name], that report with a pipeline
    equal to [p] ([p] itself when the call made the connection); a further
    call, in the same pass, for a pipeline [q] of that name returns the same
    report and leaves workflow and table untouched when [q] compares equal
    to the registered pipeline, and raises the name-clash error
    otherwise. *)
Theorem connect_twice self p q sids vids sids' vids' s s' report :
  _connect_to_repository self p sids vids s = (s', inr report) ->
  name q = name p ->
  ∃ prev,
    already_connected s' !! name p = Some (prev, report)
    ∧ Pipeline_eqb prev p = true
    ∧ (already_connected s !! name p = None -> prev = p)
    ∧ _connect_to_repository self q sids' vids' s'
      = if Pipeline_eqb prev q then (s', inr report)
        else (s', inl (ArcanaError (name_clash_msg prev q))).
Proof.
  intros Hp Hq.
  assert (∃ prev, already_connected s' !! name p = Some (prev, report)
                  ∧ Pipeline_eqb prev p = true
                  ∧ (already_connected s !! name p = None -> prev = p))
    as (prev & Hprev & Heq & Hnew).
  { destruct (already_connected s !! name p) as [[prev r]|] eqn:Hs.
    - rewrite (connect_already_connected _ _ _ _ _ _ _ Hs) in Hp.
      destruct (Pipeline_eqb prev p) eqn:Heq; [|done].
      injection Hp as <- <-. by exists prev.
    - rewrite (connect_not_yet_connected _ _ _ _ _ Hs) in Hp.
      apply bind_inr in Hp as (? & ? & _ & Hp).
      apply bind_inr in Hp as (stp & ? & _ & Hp).
      destruct stp as [|session stp]; [done|].
      do 3 (apply bind_inr in Hp as (? & ? & _ & Hp)).
      apply connect_source_and_sinks_registers in Hp.
      exists p. split; [done|]. split; [apply Pipeline_eqb_refl|done]. }
  exists prev. repeat (split; [done|]).
  apply connect_already_connected. by rewrite Hq.
Qed.

(** Pipeline [A] is connected on the two by two tree, then connected
    again. *)
Lemma connect_twice_witness :
  ∃ prev,
    already_connected
      (_connect_to_repository (processor_of study_one_done) pipeline_A None None
                              new_workflow).1 !! name pipeline_A
    = Some (prev,
            Made (mkNodeObj 3 "A_report" PipelineReport NoIterables None None []))
    ∧ Pipeline_eqb prev pipeline_A = true
    ∧ (already_connected new_workflow !! name pipeline_A = None
       -> prev = pipeline_A)
    ∧ _connect_to_repository (processor_of study_one_done) pipeline_A
        (Some ["1"]) None
        (_connect_to_repository (processor_of study_one_done) pipeline_A None None
                                new_workflow).1
      = if Pipeline_eqb prev pipeline_A
        then ((_connect_to_repository (processor_of study_one_done) pipeline_A
                                      None None new_workflow).1,
              inr (Made (mkNodeObj 3 "A_report" PipelineReport NoIterables
                                   None None [])))
        else ((_connect_to_repository (processor_of study_one_done) pipeline_A
                                      None None new_workflow).1,
              inl (ArcanaError (name_clash_msg prev pipeline_A))).
Proof.
  apply (connect_twice (processor_of study_one_done) pipeline_A pipeline_A
           None None (Some ["1"]) None new_workflow);
    [vm_compute; reflexivity|reflexivity].
Defined.

(** *** Format conversion on the inputs *)

Lemma append_assoc (a b c : string) : (a +:+ b) +:+ c = a +:+ (b +:+ c).
Proof.
  induction a as [|x a IH]; [done|].
  change (String x ((a +:+ b) +:+ c) = String x (a +:+ (b +:+ c))).
  by rewrite IH.
Qed.

Lemma append_nil_r (a : string) : a +:+ "" = a.
Proof.
  induction a as [|x a IH]; [done|].
  change (String x (a +:+ "") = String x a). by rewrite IH.
Qed.

Lemma mentions_here x post : mentions (x +:+ post) x.
Proof. by exists "", post. Qed.

Lemma mentions_end x : mentions x x.
Proof. exists "", "". by rewrite append_nil_r. Qed.

Lemma mentions_app_r a m x : mentions m x -> mentions (a +:+ m) x.
Proof. intros (pre & post & ->). exists (a +:+ pre), post. by rewrite append_assoc. Qed.

Lemma mentions_app_l m b x : mentions m x -> mentions (m +:+ b) x.
Proof.
  intros (pre & post & ->). exists pre, (post +:+ b).
  by rewrite !append_assoc.
Qed.

Create HintDb mentions.

#[local] Hint Resolve mentions_here mentions_end mentions_app_r mentions_app_l
  : mentions.



(** The whole connection of [C]: without a converter from [1.fmt] to
    [2.fmt] it fails with the no-converter error; with one registered it
    succeeds and one conversion node feeds the workflow. *)
Lemma connect_to_repository_conversion :
  (∃ s msg,
     _connect_to_repository (processor_of study_no_converter) pipeline_C None None
                            new_workflow
     = (s, inl (ArcanaNoConverterError msg)))
  ∧ (∃ s report conv c,
       _connect_to_repository (processor_of study_converter) pipeline_C None None
                              new_workflow
       = (s, inr report)
       ∧ conversion_edges (edges s)
         = [mkEdge conv (conv_out_field c) (inputnode "C") "scan"]).
Proof.
  split.
  - eexists _, _. vm_compute. reflexivity.
  - eexists _, _, _, (mkConverter "in_file" "out_file").
    split; vm_compute; reflexivity.
Qed.

End ConnectFacts.

(** ** The iteration over subjects and visits *)

Module IteratorFacts.
Import Processor Scenarios.

Lemma session_subjects_lookup l v :
  match session_subjects l !! v with
  | Some ss => v ∈ visit_id <$> l ∧ ∀ x, x ∈ ss ↔ mkSession x v ∈ l
  | None => v ∉ visit_id <$> l
  end.
Proof.
  rewrite /session_subjects. induction l as [|a l IH] using rev_ind; simpl.
  - rewrite lookup_empty. apply not_elem_of_nil.
  - rewrite foldl_app /= fmap_app /=.
    destruct (decide (visit_id a = v)) as [<-|Hne].
    + rewrite lookup_insert_eq. split; [set_solver|]. intros x.
      rewrite elem_of_union elem_of_singleton elem_of_app list_elem_of_singleton.
      destruct (foldl _ _ l !! visit_id a) as [ss|]; simpl.
      * destruct IH as [_ IH]. rewrite IH. destruct a; naive_solver.
      * split; [intros [H| ->]; [by apply not_elem_of_empty in H|]|].
        -- right. by destruct a.
        -- intros [H|H]; [|right; by destruct a; injection H].
           exfalso. apply IH. apply list_elem_of_fmap. by eexists; split; [|done].
    + rewrite lookup_insert_ne //.
      destruct (foldl _ _ l !! v) as [ss|].
      * destruct IH as [Hv IH]. split; [set_solver|]. intros x.
        rewrite IH elem_of_app list_elem_of_singleton.
        split; [by left|]. intros [?|H]; [done|]. destruct a; naive_solver.
      * rewrite elem_of_app list_elem_of_singleton. naive_solver.
Qed.

Lemma filter_subject_nil (l : list Session) x :
  x ∉ subject_id <$> l -> filter (fun se => subject_id se = x) l = [].
Proof.
  induction l as [|a l IH]; simpl; [done|].
  intros H. rewrite filter_cons_False; [set_solver|]. apply IH. set_solver.
Qed.

Lemma subject_sessions_lookup l x :
  subject_sessions l !! x
  = if decide (x ∈ subject_id <$> l)
    then Some (visit_id <$> filter (fun se => subject_id se = x) l)
    else None.
Proof.
  rewrite /subject_sessions. induction l as [|a l IH] using rev_ind; simpl.
  - by rewrite lookup_empty.
  - rewrite foldl_app /= fmap_app filter_app fmap_app /=.
    destruct (decide (subject_id a = x)) as [<-|Hne].
    + rewrite lookup_insert_eq IH.
      rewrite filter_cons_True //=.
      rewrite (decide_True (P:=_ ∈ _ ++ _)); [set_solver|].
      case_decide as H1; [done|]. by rewrite filter_subject_nil.
    + rewrite lookup_insert_ne // IH.
      rewrite filter_cons_False //= app_nil_r.
      case_decide as H1; case_decide as H2; set_solver.
Qed.

Lemma same_subjects_every_visit_rectangular l :
  same_subjects_every_visit l = true ↔ rectangular l.
Proof.
  rewrite /same_subjects_every_visit bool_decide_eq_true /rectangular.
  rewrite map_Forall_lookup. split.
  - intros H s v Hs Hv.
    pose proof (session_subjects_lookup l v) as Hl.
    destruct (session_subjects l !! v) as [ss|] eqn:Hss; [|done].
    destruct Hl as [_ Hl]. apply Hl. rewrite (H _ _ Hss).
    by apply elem_of_list_to_set.
  - intros H v ss Hss.
    pose proof (session_subjects_lookup l v) as Hl. rewrite Hss in Hl.
    destruct Hl as [Hv Hl]. apply set_eq. intros x.
    rewrite Hl /subject_ids_to_process elem_of_list_to_set. split.
    + intros Hx. apply list_elem_of_fmap. by exists (mkSession x v).
    + intros Hx. by apply H.
Qed.

Lemma visit_keys l v :
  v ∈ (map_to_list (session_subjects l)).*1 ↔ v ∈ visit_id <$> l.
Proof.
  pose proof (session_subjects_lookup l v) as Hl.
  rewrite list_elem_of_fmap. split.
  - intros ([v' ss] & -> & H%elem_of_map_to_list). simpl in *.
    rewrite H in Hl. by destruct Hl.
  - intros Hv. destruct (session_subjects l !! v) as [ss|] eqn:Hss; [|done].
    exists (v, ss). split; [done|]. by apply elem_of_map_to_list.
Qed.

Lemma elem_of_pairs (ss : list string) (f : string -> list string) x v :
  (x, v) ∈ (s ← ss; v' ← f s; [(s, v')]) ↔ x ∈ ss ∧ v ∈ f x.
Proof.
  rewrite list_elem_of_bind. split.
  - intros (s & H & Hs). apply list_elem_of_bind in H as (v' & H & Hv).
    apply list_elem_of_singleton in H. by injection H as -> ->.
  - intros [Hx Hv]. exists x. split; [|done].
    apply list_elem_of_bind. exists v. split; [|done].
    by apply list_elem_of_singleton.
Qed.

(** C6: the subjects node iterates over exactly the subject ids of the
    sessions to process. When every visit has a session for every subject,
    the sessions node iterates over the visit ids as an axis of its own;
    otherwise it takes its visit ids from a table keyed by the subject id
    of the subjects node, which lists for each subject its own visits. In
    both cases the (subject, visit) pairs run are exactly the sessions to
    process. *)
Theorem iterators_visit_exactly_the_sessions p l s :
  ∃ s' subjects sessions ids,
    _subject_and_session_iterators p l s = (s', inr (Made subjects, Made sessions))
    ∧ node_name subjects = name p +:+ "_subjects"
    ∧ iterables subjects = IterValues "subject_id" ids
    ∧ NoDup ids
    ∧ (∀ x, x ∈ ids ↔ x ∈ subject_id <$> l)
    ∧ (rectangular l ->
       ∃ vs, iterables sessions = IterValues "visit_id" vs
             ∧ itersource sessions = None
             ∧ NoDup vs
             ∧ ∀ v, v ∈ vs ↔ v ∈ visit_id <$> l)
    ∧ (¬ rectangular l ->
       ∃ m, iterables sessions = IterKeyed "visit_id" m
            ∧ itersource sessions = Some (name p +:+ "_subjects", "subject_id")
            ∧ ∀ x, m !! x
                   = if decide (x ∈ subject_id <$> l)
                     then Some (visit_id <$> filter (fun se => subject_id se = x) l)
                     else None)
    ∧ ∀ x v, (x, v) ∈ enumerated_pairs (iterables subjects) (iterables sessions)
             ↔ mkSession x v ∈ l.
Proof.
  eexists _, _, _, (elements (subject_ids_to_process l)).
  split; [reflexivity|]. simpl.
  assert (∀ x, x ∈ elements (subject_ids_to_process l) ↔ x ∈ subject_id <$> l)
    as Hids.
  { intros x. by rewrite elem_of_elements /subject_ids_to_process elem_of_list_to_set. }
  split; [done|]. split; [done|]. split; [apply NoDup_elements|].
  split; [done|].
  rewrite /sessions_iterables.
  destruct (same_subjects_every_visit l) eqn:Hrect; simpl.
  - apply same_subjects_every_visit_rectangular in Hrect.
    split; [|split; [done|]].
    + intros _. eexists. split; [done|]. split; [done|].
      split; [apply NoDup_fst_map_to_list|apply visit_keys].
    + intros x v. rewrite elem_of_pairs Hids visit_keys. split.
      * intros [Hx Hv]. by apply Hrect.
      * intros H. split; apply list_elem_of_fmap; by exists (mkSession x v).
  - assert (¬ rectangular l) as Hirr.
    { intros H%same_subjects_every_visit_rectangular. congruence. }
    split; [done|]. split.
    + intros _. eexists. split; [done|]. split; [done|].
      apply subject_sessions_lookup.
    + intros x v. rewrite elem_of_pairs Hids subject_sessions_lookup.
      split.
      * intros [Hx Hv]. rewrite decide_True // /= in Hv.
        apply list_elem_of_fmap in Hv as ([x' v'] & -> & [Hx' H]%list_elem_of_filter).
        simpl in *. by subst.
      * intros H. assert (x ∈ subject_id <$> l) as Hx.
        { apply list_elem_of_fmap. by exists (mkSession x v). }
        split; [done|]. rewrite decide_True //=.
        apply list_elem_of_fmap. exists (mkSession x v). split; [done|].
        by apply list_elem_of_filter.
Qed.

(** Subjects [A] and [B] both have visit [V1] and only [A] has visit [V2]:
    the visits are keyed by subject. *)
Lemma iterators_irregular_example :
  ¬ rectangular sessions_irregular
  ∧ sessions_iterables pipeline_A sessions_irregular
    = (IterKeyed "visit_id" {[ "A" := ["V1"; "V2"]; "B" := ["V1"] ]},
       Some ("A_subjects", "subject_id"))
  ∧ enumerated_pairs (subjects_iterables sessions_irregular)
                     (sessions_iterables pipeline_A sessions_irregular).1
    = [("A", "V1"); ("A", "V2"); ("B", "V1")].
Proof.
  split; [|split; vm_compute; reflexivity].
  intros H%same_subjects_every_visit_rectangular. vm_compute in H. done.
Qed.

(** The irregular sessions, on pipeline [A], in a new workflow. *)
Lemma iterators_visit_exactly_the_sessions_witness :
  ∃ s' subjects sessions ids,
    _subject_and_session_iterators pipeline_A sessions_irregular new_workflow
    = (s', inr (Made subjects, Made sessions))
    ∧ node_name subjects = "A_subjects"
    ∧ iterables subjects = IterValues "subject_id" ids
    ∧ NoDup ids
    ∧ (∀ x, x ∈ ids ↔ x ∈ subject_id <$> sessions_irregular)
    ∧ (rectangular sessions_irregular ->
       ∃ vs, iterables sessions = IterValues "visit_id" vs
             ∧ itersource sessions = None
             ∧ NoDup vs
             ∧ ∀ v, v ∈ vs ↔ v ∈ visit_id <$> sessions_irregular)
    ∧ (¬ rectangular sessions_irregular ->
       ∃ m, iterables sessions = IterKeyed "visit_id" m
            ∧ itersource sessions = Some ("A_subjects", "subject_id")
            ∧ ∀ x, m !! x
                   = if decide (x ∈ subject_id <$> sessions_irregular)
                     then Some (visit_id
                                  <$> filter (fun se => subject_id se = x)
                                             sessions_irregular)
                     else None)
    ∧ ∀ x v, (x, v) ∈ enumerated_pairs (iterables subjects) (iterables sessions)
             ↔ mkSession x v ∈ sessions_irregular.
Proof.
  exact (iterators_visit_exactly_the_sessions pipeline_A sessions_irregular
           new_workflow).
Defined.

End IteratorFacts.
(** ** More on the sessions to process *)

Module ToProcessMore.
Import Processor ProcessorMore Scenarios ScenariosMore.

Lemma update_per_subject_covers t sids vids items acc :
  forallb (item_in_tree t per_subject) items = true ->
  ∃ acc', update_per_subject t sids items acc = inr acc'
    ∧ ∀ s, s ∈ acc' ↔
           s ∈ acc ∨ (s ∈ sessions t
                      ∧ ∃ item, item ∈ items ∧ item_exists item = false
                                ∧ in_scope per_subject sids vids item = true
                                ∧ item_covers per_subject item s = true).
Proof.
  revert acc. induction items as [|item items IH]; intros acc; simpl.
  - intros _. exists acc. split; [done|]. intros s. split; [by left|].
    intros [?|(_ & i & Hi & _)]; [done|]. by apply elem_of_nil in Hi.
  - intros [Hitem Hitems]%andb_true_iff.
    destruct (negb (item_exists item) && passes sids (item_subject_id item)) eqn:Hc.
    + rewrite /Tree_subject_sessions Hitem.
      destruct (IH (acc ∪ list_to_set
                      (filter (fun s => subject_id s = item_subject_id item)
                              (sessions t))) Hitems) as (acc' & -> & Hacc').
      exists acc'. split; [done|]. intros s. rewrite Hacc'.
      apply andb_true_iff in Hc as [Hex%negb_true_iff Hs].
      rewrite elem_of_union elem_of_list_to_set list_elem_of_filter. split.
      * intros [[?|[Hsub Hin]]|(Hin & i & Hi & ?)]; [by left| |].
        -- right. split; [done|]. exists item. split; [by left|].
           by rewrite bool_decide_eq_true.
        -- right. split; [done|]. exists i. split; [by right|done].
      * intros [?|(Hin & i & Hi & Hex' & Hs' & Hcov)]; [by left; left|].
        apply elem_of_cons in Hi as [-> |Hi].
        -- left; right. by apply bool_decide_eq_true in Hcov.
        -- right. split; [done|]. by exists i.
    + destruct (IH acc Hitems) as (acc' & -> & Hacc').
      exists acc'. split; [done|]. intros s. rewrite Hacc'. split.
      * intros [?|(Hin & i & Hi & ?)]; [by left|].
        right. split; [done|]. exists i. split; [by right|done].
      * intros [?|(Hin & i & Hi & Hex' & Hs' & Hcov)]; [by left|].
        apply elem_of_cons in Hi as [-> |Hi]; [|right; split; [done|]; by exists i].
        simpl in Hs'. rewrite Hs' Hex' in Hc. done.
Qed.

Lemma update_per_visit_covers t sids vids items acc :
  forallb (item_in_tree t per_visit) items = true ->
  ∃ acc', update_per_visit t vids items acc = inr acc'
    ∧ ∀ s, s ∈ acc' ↔
           s ∈ acc ∨ (s ∈ sessions t
                      ∧ ∃ item, item ∈ items ∧ item_exists item = false
                                ∧ in_scope per_visit sids vids item = true
                                ∧ item_covers per_visit item s = true).
Proof.
  revert acc. induction items as [|item items IH]; intros acc; simpl.
  - intros _. exists acc. split; [done|]. intros s. split; [by left|].
    intros [?|(_ & i & Hi & _)]; [done|]. by apply elem_of_nil in Hi.
  - intros [Hitem Hitems]%andb_true_iff.
    destruct (negb (item_exists item) && passes vids (item_visit_id item)) eqn:Hc.
    + rewrite /Tree_visit_sessions Hitem.
      destruct (IH (acc ∪ list_to_set
                      (filter (fun s => visit_id s = item_visit_id item)
                              (sessions t))) Hitems) as (acc' & -> & Hacc').
      exists acc'. split; [done|]. intros s. rewrite Hacc'.
      apply andb_true_iff in Hc as [Hex%negb_true_iff Hs].
      rewrite elem_of_union elem_of_list_to_set list_elem_of_filter. split.
      * intros [[?|[Hsub Hin]]|(Hin & i & Hi & ?)]; [by left| |].
        -- right. split; [done|]. exists item. split; [by left|].
           by rewrite bool_decide_eq_true.
        -- right. split; [done|]. exists i. split; [by right|done].
      * intros [?|(Hin & i & Hi & Hex' & Hs' & Hcov)]; [by left; left|].
        apply elem_of_cons in Hi as [-> |Hi].
        -- left; right. by apply bool_decide_eq_true in Hcov.
        -- right. split; [done|]. by exists i.
    + destruct (IH acc Hitems) as (acc' & -> & Hacc').
      exists acc'. split; [done|]. intros s. rewrite Hacc'. split.
      * intros [?|(Hin & i & Hi & ?)]; [by left|].
        right. split; [done|]. exists i. split; [by right|done].
      * intros [?|(Hin & i & Hi & Hex' & Hs' & Hcov)]; [by left|].
        apply elem_of_cons in Hi as [-> |Hi]; [|right; split; [done|]; by exists i].
        simpl in Hs'. rewrite Hs' Hex' in Hc. done.
Qed.

Lemma add_per_session_covers t sids vids items acc :
  forallb (item_in_tree t per_session) items = true ->
  ∃ acc', add_per_session t sids vids items acc = inr acc'
    ∧ ∀ s, s ∈ acc' ↔
           s ∈ acc ∨ (s ∈ sessions t
                      ∧ ∃ item, item ∈ items ∧ item_exists item = false
                                ∧ in_scope per_session sids vids item = true
                                ∧ item_covers per_session item s = true).
Proof.
  intros Hitems.
  destruct (ToProcessFacts.add_per_session_spec t sids vids items acc Hitems)
    as (acc' & Hrun & Hacc').
  exists acc'. split; [done|]. intros s. rewrite Hacc'. split.
  - intros [?|(i & Hi & Hex & Hs & Hv & ->)]; [by left|]. right. split.
    + rewrite forallb_forall in Hitems. apply list_elem_of_In, Hitems in Hi.
      by apply bool_decide_eq_true in Hi.
    + exists i. simpl. rewrite Hs Hv. split; [done|]. split; [done|].
      by rewrite bool_decide_eq_true.
  - intros [?|(Hin & i & Hi & Hex & [Hs Hv]%andb_true_iff & Hcov)]; [by left|].
    right. exists i. by apply bool_decide_eq_true in Hcov.
Qed.

Lemma to_process_loop_covers st pn sids vids outs acc lg :
  forallb (output_well_formed st) outs = true ->
  existsb (per_study_item_missing st) outs = false ->
  ∃ lg' (acc' : gset Session),
    to_process_loop st pn sids vids outs acc lg = (lg', inr (elements acc'))
    ∧ ∀ s, s ∈ acc' ↔ s ∈ acc ∨ needs_processing st outs sids vids s.
Proof.
  revert acc lg. induction outs as [|o outs IH]; intros acc lg; simpl.
  - intros _ _. exists lg, acc. split; [done|]. intros s. split; [by left|].
    intros [?|(_ & o & ? & ? & Ho & _)]; [done|]. by apply elem_of_nil in Ho.
  - intros [Hwf Hwfs]%andb_true_iff [Hmiss Hmisss]%orb_false_iff.
    rewrite /output_well_formed in Hwf. rewrite /per_study_item_missing in Hmiss.
    rewrite /spec. destruct (study_specs st !! o) as [sp|] eqn:Hsp; [|done].
    apply andb_true_iff in Hwf as [Hitems Hne].
    assert (∀ (acc1 : gset Session) lg1,
              (∀ s, s ∈ acc1 ↔
                    s ∈ acc ∨ (s ∈ sessions (tree st)
                               ∧ ∃ item, item ∈ collection sp
                                         ∧ item_exists item = false
                                         ∧ in_scope (frequency sp) sids vids item = true
                                         ∧ item_covers (frequency sp) item s = true)) ->
              ∃ lg' (acc' : gset Session),
                to_process_loop st pn sids vids outs acc1 lg1
                = (lg', inr (elements acc'))
                ∧ ∀ s, s ∈ acc' ↔
                       s ∈ acc ∨ needs_processing st (o :: outs) sids vids s)
      as Hnext.
    { intros acc1 lg1 Hacc1.
      destruct (IH acc1 lg1 Hwfs Hmisss) as (lg' & acc' & Hrun & Hacc').
      exists lg', acc'. split; [done|]. intros s.
      rewrite Hacc' Hacc1 /needs_processing. split.
      - intros [[?|(Hin & i & Hi & ?)]|(Hin & o' & sp' & i & Ho' & ?)];
          [by left| |].
        + right. split; [done|]. exists o, sp, i. split; [by left|done].
        + right. split; [done|]. exists o', sp', i. split; [by right|done].
      - intros [?|(Hin & o' & sp' & i & Ho' & Hsp' & Hrest)]; [by left; left|].
        apply elem_of_cons in Ho' as [-> |Ho'].
        + rewrite Hsp in Hsp'. injection Hsp' as <-. left; right.
          split; [done|]. by exists i.
        + right. split; [done|]. by exists o', sp', i. }
    destruct (frequency sp) eqn:Hf.
    + destruct (add_per_session_covers (tree st) sids vids (collection sp) acc
                  Hitems) as (acc1 & -> & Hacc1). by apply Hnext.
    + destruct (update_per_subject_covers (tree st) sids vids (collection sp) acc
                  Hitems) as (acc1 & -> & Hacc1). by apply Hnext.
    + destruct (update_per_visit_covers (tree st) sids vids (collection sp) acc
                  Hitems) as (acc1 & -> & Hacc1). by apply Hnext.
    + apply bool_decide_eq_true in Hne. specialize (Hne eq_refl).
      destruct (collection sp) as [|item items]; [done|].
      rewrite bool_decide_eq_true_2 //= in Hmiss.
      apply negb_false_iff in Hmiss. rewrite Hmiss /=.
      apply Hnext. intros s. split; [by left|].
      intros [?|(_ & i & _ & _ & _ & ?)]; done.
Qed.

Lemma scope_check_passes st p :
  well_formed st p = true ->
  regular_scope st p = true ->
  ∃ nps, non_per_session_outputs st (outputs p) = inr nps
         ∧ bool_decide (nps ≠ []) && bool_decide (incomplete_subjects (tree st) ≠ [])
           = false.
Proof.
  intros Hwf Hreg.
  destruct (ToProcessFacts.non_per_session_outputs_resolve _ _ Hwf) as [nps Hnps].
  exists nps. split; [done|].
  apply orb_true_iff in Hreg as [Hps|Hinc].
  - rewrite (ToProcessFacts.non_per_session_outputs_nil _ _ Hps) in Hnps.
    injection Hnps as <-. by rewrite bool_decide_eq_false_2; [auto|].
  - apply bool_decide_eq_true in Hinc. rewrite Hinc.
    rewrite (bool_decide_eq_false_2 ([] ≠ [])); [by auto|].
    by rewrite andb_false_r.
Qed.

(** X1: for a well-formed study, a pipeline that passes the scope check
    and has no [per_study] output whose item is missing: the sessions
    returned are, each once, the sessions of the tree that lie under an
    item that does not exist and passes the filter of its frequency (the
    session itself, its subject, or its visit). *)
Theorem to_process_covers self p sids vids :
  well_formed (study self) p = true ->
  regular_scope (study self) p = true ->
  per_study_output_missing (study self) p = false ->
  ∃ lg l, _to_process self p sids vids false = (lg, inr l)
          ∧ NoDup l
          ∧ ∀ s, s ∈ l ↔ needs_processing (study self) (outputs p) sids vids s.
Proof.
  intros Hwf Hreg Hmiss. rewrite /_to_process.
  destruct (scope_check_passes _ _ Hwf Hreg) as (nps & -> & ->).
  destruct (to_process_loop_covers (study self) (name p) sids vids (outputs p)
              ∅ [] Hwf Hmiss) as (lg & acc & -> & Hacc).
  exists lg, (elements acc). split; [done|]. split; [apply NoDup_elements|].
  intros s. rewrite elem_of_elements Hacc. split; [|by right].
  intros [H|H]; [by apply not_elem_of_empty in H|done].
Qed.

Lemma to_process_covers_witness :
  ∃ lg l, _to_process (processor_of study_mixed) pipeline_M
                      (Some ["2"]) (Some ["1"]) false = (lg, inr l)
          ∧ NoDup l
          ∧ ∀ s, s ∈ l ↔ needs_processing study_mixed (outputs pipeline_M)
                           (Some ["2"]) (Some ["1"]) s.
Proof.
  apply (to_process_covers (processor_of study_mixed) pipeline_M
           (Some ["2"]) (Some ["1"])); reflexivity.
Defined.

(** *** Filters that do not apply *)

Lemma to_process_loop_per_subject_visits st pn sids vids vids' outs acc lg lg' :
  forallb (fun o => match study_specs st !! o with
                    | Some sp => bool_decide (frequency sp = per_subject)
                    | None => false
                    end) outs = true ->
  (to_process_loop st pn sids vids outs acc lg).2
  = (to_process_loop st pn sids vids' outs acc lg').2.
Proof.
  revert acc lg lg'. induction outs as [|o outs IH]; intros acc lg lg'; simpl;
    [done|].
  intros [Ho Houts]%andb_true_iff. rewrite /spec.
  destruct (study_specs st !! o) as [sp|]; [|done].
  apply bool_decide_eq_true in Ho. rewrite Ho.
  destruct (update_per_subject _ _ _ _); [done|]. by apply IH.
Qed.

Lemma to_process_loop_per_visit_subjects st pn sids sids' vids outs acc lg lg' :
  forallb (fun o => match study_specs st !! o with
                    | Some sp => bool_decide (frequency sp = per_visit)
                    | None => false
                    end) outs = true ->
  (to_process_loop st pn sids vids outs acc lg).2
  = (to_process_loop st pn sids' vids outs acc lg').2.
Proof.
  revert acc lg lg'. induction outs as [|o outs IH]; intros acc lg lg'; simpl;
    [done|].
  intros [Ho Houts]%andb_true_iff. rewrite /spec.
  destruct (study_specs st !! o) as [sp|]; [|done].
  apply bool_decide_eq_true in Ho. rewrite Ho.
  destruct (update_per_visit _ _ _ _); [done|]. by apply IH.
Qed.

Lemma to_process_loop_per_study_filters st pn sids sids' vids vids' outs acc lg lg' :
  forallb (fun o => match study_specs st !! o with
                    | Some sp => bool_decide (frequency sp = per_study)
                    | None => false
                    end) outs = true ->
  (to_process_loop st pn sids vids outs acc lg).2
  = (to_process_loop st pn sids' vids' outs acc lg').2.
Proof.
  revert acc lg lg'. induction outs as [|o outs IH]; intros acc lg lg'; simpl;
    [done|].
  intros [Ho Houts]%andb_true_iff. rewrite /spec.
  destruct (study_specs st !! o) as [sp|]; [|done].
  apply bool_decide_eq_true in Ho. rewrite Ho.
  destruct (collection sp) as [|i items]; [done|].
  destruct (item_exists i); simpl; [by apply IH|done].
Qed.

Lemma to_process_same_result self p sids sids' vids vids' r :
  (∀ acc lg lg',
     (to_process_loop (study self) (name p) sids vids (outputs p) acc lg).2
     = (to_process_loop (study self) (name p) sids' vids' (outputs p) acc lg').2) ->
  (_to_process self p sids vids r).2 = (_to_process self p sids' vids' r).2.
Proof.
  intros Hloop. rewrite /_to_process.
  destruct (non_per_session_outputs _ _); [done|].
  case_match; [by destruct (BaseProcessor_name self)|].
  destruct r; [done|]. apply Hloop.
Qed.

(** X2: a filter that does not apply to the frequency of the outputs does
    not change what [_to_process] returns or raises: the visit filter when
    every output is [per_subject], the subject filter when every output is
    [per_visit], both filters when every output is [per_study]. *)
Theorem to_process_ignores_other_filter self p sids sids' vids vids' r :
  (all_outputs_at per_subject (study self) p = true ->
   (_to_process self p sids vids r).2 = (_to_process self p sids vids' r).2)
  ∧ (all_outputs_at per_visit (study self) p = true ->
     (_to_process self p sids vids r).2 = (_to_process self p sids' vids r).2)
  ∧ (all_outputs_at per_study (study self) p = true ->
     (_to_process self p sids vids r).2 = (_to_process self p sids' vids' r).2).
Proof.
  split; [|split]; intros H; apply to_process_same_result; intros acc lg lg'.
  - by apply to_process_loop_per_subject_visits.
  - by apply to_process_loop_per_visit_subjects.
  - by apply to_process_loop_per_study_filters.
Qed.

Lemma to_process_ignores_other_filter_witness :
  (_to_process (processor_of study_subjects) pipeline_S None (Some ["1"]) false).2
  = (_to_process (processor_of study_subjects) pipeline_S None None false).2.
Proof.
  apply (proj1 (to_process_ignores_other_filter (processor_of study_subjects)
                  pipeline_S None None (Some ["1"]) None false)).
  reflexivity.
Defined.

(** *** The sessions returned are sessions of the tree *)

Lemma update_per_subject_within t sids items (acc acc' : gset Session) :
  update_per_subject t sids items acc = inr acc' ->
  (∀ s, s ∈ acc -> s ∈ sessions t) -> ∀ s, s ∈ acc' -> s ∈ sessions t.
Proof.
  revert acc. induction items as [|i items IH]; intros acc; simpl.
  - by intros [= ->].
  - case_match; [|apply IH]. rewrite /Tree_subject_sessions.
    case_bool_decide; [|done]. intros Hrun Hacc. eapply IH; [done|].
    intros s [?|[_ ?]%elem_of_list_to_set%list_elem_of_filter]%elem_of_union; auto.
Qed.

Lemma update_per_visit_within t vids items (acc acc' : gset Session) :
  update_per_visit t vids items acc = inr acc' ->
  (∀ s, s ∈ acc -> s ∈ sessions t) -> ∀ s, s ∈ acc' -> s ∈ sessions t.
Proof.
  revert acc. induction items as [|i items IH]; intros acc; simpl.
  - by intros [= ->].
  - case_match; [|apply IH]. rewrite /Tree_visit_sessions.
    case_bool_decide; [|done]. intros Hrun Hacc. eapply IH; [done|].
    intros s [?|[_ ?]%elem_of_list_to_set%list_elem_of_filter]%elem_of_union; auto.
Qed.

Lemma add_per_session_within t sids vids items (acc acc' : gset Session) :
  add_per_session t sids vids items acc = inr acc' ->
  (∀ s, s ∈ acc -> s ∈ sessions t) -> ∀ s, s ∈ acc' -> s ∈ sessions t.
Proof.
  revert acc. induction items as [|i items IH]; intros acc; simpl.
  - by intros [= ->].
  - case_match; [|apply IH]. rewrite /Tree_session.
    case_bool_decide as Hin; [|done]. intros Hrun Hacc. eapply IH; [done|].
    intros s [?| ->%elem_of_singleton]%elem_of_union; auto.
Qed.

Lemma to_process_loop_within st pn sids vids outs (acc : gset Session) lg lg' l :
  to_process_loop st pn sids vids outs acc lg = (lg', inr l) ->
  (∀ s, s ∈ acc -> s ∈ sessions (tree st)) ->
  ∀ s, s ∈ l -> s ∈ sessions (tree st).
Proof.
  revert acc lg. induction outs as [|o outs IH]; intros acc lg; simpl.
  - intros [= _ <-] Hacc s Hs%elem_of_elements. by apply Hacc.
  - destruct (spec st o) as [e|sp]; [done|].
    destruct (frequency sp).
    + destruct (add_per_session _ _ _ _ _) as [e|acc1] eqn:H1; [done|].
      intros Hrun Hacc. eapply IH; [done|].
      by eapply add_per_session_within.
    + destruct (update_per_subject _ _ _ _) as [e|acc1] eqn:H1; [done|].
      intros Hrun Hacc. eapply IH; [done|].
      by eapply update_per_subject_within.
    + destruct (update_per_visit _ _ _ _) as [e|acc1] eqn:H1; [done|].
      intros Hrun Hacc. eapply IH; [done|].
      by eapply update_per_visit_within.
    + destruct (collection sp) as [|i items]; [done|].
      destruct (item_exists i); simpl; [apply IH|].
      by intros [= _ <-].
Qed.

(** X3: whatever the pipeline, the study and the filters, every session
    that [_to_process] returns is a session of the tree. *)
Theorem to_process_within_tree self p sids vids r lg l :
  _to_process self p sids vids r = (lg, inr l) ->
  ∀ s, s ∈ l -> s ∈ sessions (tree (study self)).
Proof.
  rewrite /_to_process.
  destruct (non_per_session_outputs _ _); [done|].
  case_match; [by destruct (BaseProcessor_name self)|].
  destruct r; [done|]. intros Hrun. eapply to_process_loop_within; [done|].
  intros s Hs. by apply not_elem_of_empty in Hs.
Qed.

Lemma to_process_within_tree_witness :
  Forall (fun s => s ∈ sessions tree22)
         [mkSession "1" "1"; mkSession "2" "1"; mkSession "2" "2"].
Proof.
  apply Forall_forall.
  apply (to_process_within_tree (processor_of study_one_done) pipeline_A
           None None false []).
  reflexivity.
Defined.

(** *** What is logged *)

Lemma cannot_restrict_none what pn f o : cannot_restrict what None pn f o = [].
Proof. done. Qed.

Lemma to_process_loop_log st pn sids vids outs acc lg :
  ∃ w, (to_process_loop st pn sids vids outs acc lg).1 = lg ++ w
       ∧ forallb is_warning w = true
       ∧ (sids = None -> vids = None -> w = []).
Proof.
  revert acc lg. induction outs as [|o outs IH]; intros acc lg; simpl.
  { exists []. by rewrite app_nil_r. }
  assert (∀ c acc1,
            forallb is_warning c = true ->
            (sids = None -> vids = None -> c = []) ->
            ∃ w, (to_process_loop st pn sids vids outs acc1 (lg ++ c)).1 = lg ++ w
                 ∧ forallb is_warning w = true
                 ∧ (sids = None -> vids = None -> w = [])) as Hnext.
  { intros c acc1 Hc Hnone. destruct (IH acc1 (lg ++ c)) as (w & -> & Hw & Hwn).
    exists (c ++ w). rewrite assoc. split; [done|]. split.
    - by rewrite forallb_app Hc.
    - intros Hs Hv. by rewrite (Hnone Hs Hv) (Hwn Hs Hv). }
  assert (∀ c e,
            forallb is_warning c = true ->
            (sids = None -> vids = None -> c = []) ->
            ∃ w, ((lg ++ c, inl e) : list LogRecord * (exn + list Session)).1
                 = lg ++ w
                 ∧ forallb is_warning w = true
                 ∧ (sids = None -> vids = None -> w = [])) as Hstop.
  { intros c e Hc Hnone. by exists c. }
  destruct (spec st o) as [e|sp].
  { exists []. by rewrite app_nil_r. }
  destruct (frequency sp).
  - destruct (add_per_session _ _ _ _ _) as [e|acc1].
    + exists []. by rewrite app_nil_r.
    + rewrite -{1}(app_nil_r lg). by apply Hnext.
  - destruct (update_per_subject _ _ _ _) as [e|acc1].
    + apply Hstop; [apply ToProcessFacts.cannot_restrict_is_warning|].
      by intros _ ->.
    + apply Hnext; [apply ToProcessFacts.cannot_restrict_is_warning|].
      by intros _ ->.
  - destruct (update_per_visit _ _ _ _) as [e|acc1].
    + apply Hstop; [apply ToProcessFacts.cannot_restrict_is_warning|].
      by intros -> _.
    + apply Hnext; [apply ToProcessFacts.cannot_restrict_is_warning|].
      by intros -> _.
  - assert (forallb is_warning
              (cannot_restrict "subject" sids pn "per_study" o
               ++ cannot_restrict "visit" vids pn "per_study" o) = true) as Hc.
    { by rewrite forallb_app !ToProcessFacts.cannot_restrict_is_warning. }
    assert (sids = None -> vids = None ->
            cannot_restrict "subject" sids pn "per_study" o
            ++ cannot_restrict "visit" vids pn "per_study" o = []) as Hn.
    { by intros -> ->. }
    destruct (collection sp) as [|i items]; [by apply Hstop|].
    destruct (item_exists i); simpl; [by apply Hnext|].
    by eexists.
Qed.

Lemma to_process_log_shape self p sids vids r :
  forallb is_warning (_to_process self p sids vids r).1 = true
  ∧ (sids = None -> vids = None -> (_to_process self p sids vids r).1 = []).
Proof.
  rewrite /_to_process.
  destruct (non_per_session_outputs _ _); [done|].
  case_match; [by destruct (BaseProcessor_name self)|].
  destruct r; [done|].
  destruct (to_process_loop_log (study self) (name p) sids vids (outputs p)
              ∅ []) as (w & -> & ? & ?). done.
Qed.


(** X4: [_to_process] writes nothing but warnings to the log, and nothing
    at all when neither a subject nor a visit filter is given. *)
Theorem to_process_logs_only_warnings self p sids vids r :
  forallb is_warning (_to_process self p sids vids r).1 = true
  ∧ (_to_process self p None None r).1 = [].
Proof.
  split; [apply to_process_log_shape|].
  by apply (to_process_log_shape self p None None r).
Qed.

(** *** Filters only narrow *)

Lemma in_scope_wider f sids vids sids' vids' item :
  wider sids sids' -> wider vids vids' ->
  in_scope f sids' vids' item = true -> in_scope f sids vids item = true.
Proof.
  intros Hs Hv. destruct f; simpl; [|by apply Hs|by apply Hv|done].
  intros [H1 H2]%andb_true_iff. by rewrite (Hs _ H1) (Hv _ H2).
Qed.

(** X5: for a well-formed study and a pipeline that passes the scope
    check, narrowing the subject or the visit filter never adds a session:
    what is returned under the narrower filters is returned under the wider
    ones ([None] being the widest). *)
Theorem to_process_filters_narrow self p sids vids sids' vids' :
  well_formed (study self) p = true ->
  regular_scope (study self) p = true ->
  wider sids sids' ->
  wider vids vids' ->
  ∃ lg l lg' l',
    _to_process self p sids vids false = (lg, inr l)
    ∧ _to_process self p sids' vids' false = (lg', inr l')
    ∧ ∀ s, s ∈ l' -> s ∈ l.
Proof.
  intros Hwf Hreg Hs Hv. rewrite /_to_process.
  destruct (scope_check_passes _ _ Hwf Hreg) as (nps & -> & ->).
  destruct (per_study_output_missing (study self) p) eqn:Hmiss.
  - destruct (ToProcessFacts.to_process_loop_per_study_missing
                (study self) (name p) sids vids (outputs p) ∅ [] Hwf Hmiss)
      as (lg & -> & _).
    destruct (ToProcessFacts.to_process_loop_per_study_missing
                (study self) (name p) sids' vids' (outputs p) ∅ [] Hwf Hmiss)
      as (lg' & -> & _).
    by eexists _, _, _, _.
  - destruct (to_process_loop_covers (study self) (name p) sids vids (outputs p)
                ∅ [] Hwf Hmiss) as (lg & acc & -> & Hacc).
    destruct (to_process_loop_covers (study self) (name p) sids' vids' (outputs p)
                ∅ [] Hwf Hmiss) as (lg' & acc' & -> & Hacc').
    eexists _, _, _, _. split; [done|]. split; [done|].
    intros s. rewrite !elem_of_elements Hacc Hacc'.
    intros [?|(Hin & o & sp & i & Ho & Hsp & Hi & Hex & Hsc & Hcov)]; [by left|].
    right. split; [done|]. exists o, sp, i. repeat (split; [done|]).
    split; [|done]. by eapply in_scope_wider.
Qed.

Lemma to_process_filters_narrow_witness :
  ∃ lg l lg' l',
    _to_process (processor_of study_mixed) pipeline_M None None false = (lg, inr l)
    ∧ _to_process (processor_of study_mixed) pipeline_M (Some ["1"]) (Some ["2"])
                  false = (lg', inr l')
    ∧ ∀ s, s ∈ l' -> s ∈ l.
Proof.
  apply (to_process_filters_narrow (processor_of study_mixed) pipeline_M
           None None (Some ["1"]) (Some ["2"]));
    [reflexivity|reflexivity|by intros x _|by intros x _].
Defined.

End ToProcessMore.

(** ** More on the iteration over subjects and visits *)

Module IteratorsMore.
Import Processor ProcessorMore Scenarios ScenariosMore.

Lemma NoDup_pairs (ss : list string) (f : string -> list string) :
  NoDup ss -> (∀ x, x ∈ ss -> NoDup (f x)) ->
  NoDup (s ← ss; v ← f s; [(s, v)]).
Proof.
  intros Hss Hf. apply NoDup_bind; [| |done].
  - intros x1 x2 [y v] _ _ H1 H2.
    apply list_elem_of_bind in H1 as (v1 & H1%list_elem_of_singleton & _).
    apply list_elem_of_bind in H2 as (v2 & H2%list_elem_of_singleton & _).
    congruence.
  - intros x Hx. apply NoDup_bind; [| |by apply Hf].
    + intros v1 v2 [y v] _ _ H1%list_elem_of_singleton H2%list_elem_of_singleton.
      congruence.
    + intros v _. apply NoDup_singleton.
Qed.

Lemma enumerated_pairs_sessions p l x v :
  (x, v) ∈ enumerated_pairs (subjects_iterables l) (sessions_iterables p l).1
  ↔ mkSession x v ∈ l.
Proof.
  assert (∀ y, y ∈ elements (subject_ids_to_process l) ↔ y ∈ subject_id <$> l)
    as Hids.
  { intros y. by rewrite elem_of_elements /subject_ids_to_process elem_of_list_to_set. }
  rewrite /subjects_iterables /sessions_iterables.
  destruct (same_subjects_every_visit l) eqn:Hrect; simpl.
  - apply IteratorFacts.same_subjects_every_visit_rectangular in Hrect.
    rewrite IteratorFacts.elem_of_pairs Hids IteratorFacts.visit_keys. split.
    + intros [Hx Hv]. by apply Hrect.
    + intros H. split; apply list_elem_of_fmap; by exists (mkSession x v).
  - rewrite IteratorFacts.elem_of_pairs Hids IteratorFacts.subject_sessions_lookup.
    split.
    + intros [Hx Hv]. rewrite decide_True // /= in Hv.
      apply list_elem_of_fmap in Hv as ([x' v'] & -> & [Hx' H]%list_elem_of_filter).
      simpl in *. by subst.
    + intros H. assert (x ∈ subject_id <$> l) as Hx.
      { apply list_elem_of_fmap. by exists (mkSession x v). }
      split; [done|]. rewrite decide_True //=.
      apply list_elem_of_fmap. exists (mkSession x v). split; [done|].
      by apply list_elem_of_filter.
Qed.

(** X6: when no session is listed twice, the (subject, visit) pairs run
    for the two iteration axes are the sessions to process, each exactly
    once (in some order), with either strategy. *)
Theorem iterators_run_each_session_once p l :
  NoDup l ->
  enumerated_pairs (subjects_iterables l) (sessions_iterables p l).1
  ≡ₚ (fun s => (subject_id s, visit_id s)) <$> l.
Proof.
  intros Hl. apply NoDup_Permutation.
  - rewrite /subjects_iterables /sessions_iterables.
    destruct (same_subjects_every_visit l); simpl.
    + apply NoDup_pairs; [apply NoDup_elements|].
      intros _ _. apply NoDup_fst_map_to_list.
    + apply NoDup_pairs; [apply NoDup_elements|].
      intros x _. rewrite IteratorFacts.subject_sessions_lookup.
      case_decide; simpl; [|apply NoDup_nil_2].
      apply NoDup_fmap_2_strong; [|by apply NoDup_filter].
      intros [x1 v1] [x2 v2] [H1 _]%list_elem_of_filter [H2 _]%list_elem_of_filter.
      simpl in *. congruence.
  - apply NoDup_fmap_2_strong; [|done].
    intros [x1 v1] [x2 v2] _ _. simpl. congruence.
  - intros [x v]. rewrite enumerated_pairs_sessions list_elem_of_fmap. split.
    + intros H. by exists (mkSession x v).
    + intros ([x' v'] & [= -> ->] & H). done.
Qed.

Lemma iterators_run_each_session_once_witness :
  enumerated_pairs (subjects_iterables sessions_irregular)
                   (sessions_iterables pipeline_A sessions_irregular).1
  ≡ₚ (fun s => (subject_id s, visit_id s)) <$> sessions_irregular.
Proof.
  apply (iterators_run_each_session_once pipeline_A sessions_irregular).
  vm_compute. repeat constructor; set_solver.
Defined.

End IteratorsMore.

(** ** More on connecting pipelines *)

Module ConnectMore.
Import Processor ProcessorMore Scenarios ScenariosMore.

(** *** Planning only adds *)

Lemma extends_refl s : extends s s.
Proof. by rewrite /extends. Qed.

Lemma extends_trans s1 s2 s3 : extends s1 s2 -> extends s2 s3 -> extends s1 s3.
Proof.
  intros (H1 & H2 & H3 & H4 & H5) (G1 & G2 & G3 & G4 & G5).
  repeat split; by etrans.
Qed.

Lemma bind_cases {A B : Type} (m : M A) (k : A -> M B) s s' r :
  (m ≫= k) s = (s', r) ->
  (∃ e, m s = (s', inl e) ∧ r = inl e)
  ∨ ∃ a s1, m s = (s1, inr a) ∧ k a s1 = (s', r).
Proof.
  rewrite /mbind /M_bind. destruct (m s) as [s1 [e|a]].
  - intros [= -> <-]. left. by exists e.
  - right. by exists a, s1.
Qed.

Lemma keeps_of_only_extends {A : Type} s0 (m : M A) : only_extends m -> keeps s0 m.
Proof. intros Hm s s' r Hs Hrun. eapply extends_trans; [done|]. by eapply Hm. Qed.

Lemma only_extends_of_keeps {A : Type} (m : M A) :
  (∀ s0, keeps s0 m) -> only_extends m.
Proof. intros Hm s s' r Hrun. eapply (Hm s); [apply extends_refl|done]. Qed.

Lemma keeps_bind {A B : Type} s0 (m : M A) (k : A -> M B) :
  keeps s0 m -> (∀ a, keeps s0 (k a)) -> keeps s0 (m ≫= k).
Proof.
  intros Hm Hk s s' r Hs [(e & Hrun & _)|(a & s1 & Hrun & Hk')]%bind_cases.
  - by eapply Hm.
  - eapply Hk; [|done]. by eapply Hm.
Qed.

Lemma only_extends_bind {A B : Type} (m : M A) (k : A -> M B) :
  only_extends m -> (∀ a, only_extends (k a)) -> only_extends (m ≫= k).
Proof.
  intros Hm Hk. apply only_extends_of_keeps. intros s0.
  apply keeps_bind; [by apply keeps_of_only_extends|].
  intros a. by apply keeps_of_only_extends.
Qed.

Lemma only_extends_ret {A : Type} (a : A) : only_extends (mret a).
Proof. intros s s' r [= <- _]. apply extends_refl. Qed.

Lemma only_extends_raise {A : Type} (e : exn) : only_extends (raise (A:=A) e).
Proof. intros s s' r [= <- _]. apply extends_refl. Qed.

Lemma only_extends_lift {A : Type} (x : exn + A) : only_extends (lift x).
Proof. intros s s' r [= <- _]. apply extends_refl. Qed.

Lemma only_extends_connect a af b bf : only_extends (connect a af b bf).
Proof.
  intros s s' r [= <- _]. rewrite /extends /=.
  repeat split; try done. by apply prefix_app_r.
Qed.

Lemma only_extends_make_node nm i it sr js jf :
  only_extends (make_node nm i it sr js jf).
Proof. intros s s' r [= <- _]. rewrite /extends /=. repeat split; try done. lia. Qed.

Lemma only_extends_logger records : only_extends (logger records).
Proof.
  intros s s' r [= <- _]. rewrite /extends /=.
  repeat split; try done. by apply prefix_app_r.
Qed.

Lemma only_extends_add_nodes p : only_extends (add_nodes p).
Proof.
  intros s s' r [= <- _]. rewrite /extends /=.
  repeat split; try done. by apply prefix_app_r.
Qed.

Lemma keeps_register s0 p report :
  already_connected s0 !! name p = None -> keeps s0 (register p report).
Proof.
  intros Hp s s' r (H1 & H2 & H3 & H4 & H5) [= <- _]. rewrite /extends /=.
  repeat split; try done. by apply insert_subseteq_r.
Qed.

Create HintDb ext.

#[local] Hint Resolve only_extends_ret only_extends_raise only_extends_lift
  only_extends_connect only_extends_make_node only_extends_logger
  only_extends_add_nodes : ext.

Ltac ext_step :=
  first [ apply only_extends_bind; [|intros ?]
        | solve [auto with ext] ].

Lemma only_extends_assert_connected p : only_extends (assert_connected p).
Proof. rewrite /assert_connected. destruct (is_connected p); ext_step. Qed.

Lemma only_extends_to_process self p sids vids :
  only_extends (to_process self p sids vids).
Proof. rewrite /to_process. repeat ext_step. Qed.

Lemma only_extends_iterators p l : only_extends (_subject_and_session_iterators p l).
Proof. rewrite /_subject_and_session_iterators /create_node. repeat ext_step. Qed.

Lemma only_extends_connect_to_reports p sink summary f subjects sessions :
  only_extends (_connect_to_reports p sink summary f subjects sessions).
Proof. destruct f; rewrite /= /JoinNode; repeat ext_step. Qed.

Lemma only_extends_connect_reports n i reports :
  only_extends (connect_reports n i reports).
Proof.
  revert i. induction reports as [|r reports IH]; intros i; simpl;
    repeat ext_step.
Qed.

Lemma only_extends_join_prerequisites p subjects reports :
  only_extends (join_prerequisites p subjects reports).
Proof.
  rewrite /join_prerequisites /create_node.
  destruct reports; repeat ext_step. apply only_extends_connect_reports.
Qed.

Lemma only_extends_study_source self p : only_extends (study_source self p).
Proof. rewrite /study_source. destruct (source_missing _); ext_step. Qed.

Lemma only_extends_connect_input self p source input_spec :
  only_extends (connect_input self p source input_spec).
Proof.
  rewrite /connect_input. ext_step; [ext_step|]. ext_step; [|ext_step].
  destruct (is_fileset a); [|ext_step].
  case_bool_decide; [|ext_step].
  destruct (converter_from _ _ _) as [[]|c]; repeat ext_step.
Qed.

Lemma only_extends_connect_inputs self p source input_specs last :
  only_extends (connect_inputs self p source input_specs last).
Proof.
  revert last. induction input_specs as [|i rest IH]; intros last; simpl.
  - ext_step.
  - apply only_extends_bind; [apply only_extends_connect_input|].
    intros a. apply IH.
Qed.

Lemma only_extends_connect_output self p sink f last output_spec :
  only_extends (connect_output self p sink f last output_spec).
Proof.
  rewrite /connect_output. ext_step; [ext_step|].
  destruct (is_spec a); [|ext_step].
  destruct (is_fileset a); [|ext_step].
  case_bool_decide; [|ext_step].
  destruct (converter_from _ _ _) as [[]|c]; try destruct last as [[i isp]|];
    repeat ext_step.
Qed.

Lemma only_extends_connect_outputs self p sink f last output_specs :
  only_extends (connect_outputs self p sink f last output_specs).
Proof.
  induction output_specs as [|o rest IH]; simpl; [ext_step|].
  apply only_extends_bind; [apply only_extends_connect_output|]. intros _. apply IH.
Qed.

Lemma only_extends_connect_sinks self p report subjects sessions last items :
  only_extends (connect_sinks self p report subjects sessions last items).
Proof.
  induction items as [|[f outs] rest IH]; simpl; [ext_step|].
  ext_step; [ext_step|].
  ext_step; [case_bool_decide; ext_step|].
  ext_step; [case_bool_decide; ext_step|].
  ext_step; [apply only_extends_connect_outputs|].
  ext_step; [apply only_extends_connect_to_reports|]. apply IH.
Qed.

Lemma keeps_connect_source_and_sinks s0 self p subjects sessions :
  already_connected s0 !! name p = None ->
  keeps s0 (connect_source_and_sinks self p subjects sessions).
Proof.
  intros Hp. rewrite /connect_source_and_sinks /create_node.
  apply keeps_bind; [apply keeps_of_only_extends, only_extends_study_source|].
  intros source.
  do 4 (apply keeps_bind; [apply keeps_of_only_extends; ext_step|]; intros _).
  apply keeps_bind; [apply keeps_of_only_extends, only_extends_connect_inputs|].
  intros last.
  apply keeps_bind; [apply keeps_of_only_extends; ext_step|]. intros report.
  apply keeps_bind; [apply keeps_of_only_extends, only_extends_connect_sinks|].
  intros _.
  apply keeps_bind; [by apply keeps_register|]. intros _.
  apply keeps_of_only_extends. ext_step.
Qed.

Lemma only_extends_connect_prerequisites f p prereqs reports :
  Forall (fun q => only_extends (f q)) prereqs ->
  only_extends (connect_prerequisites f p prereqs reports).
Proof.
  revert reports. induction prereqs as [|q rest IH]; intros reports Hf; simpl.
  - ext_step.
  - apply Forall_cons in Hf as [Hq Hrest].
    intros s s' r. destruct (f q s) as [s1 [e1|rq]] eqn:Hrun.
    + destruct (is_no_run_required e1).
      * intros H. eapply extends_trans; [by eapply Hq|].
        revert H. apply only_extends_bind; [ext_step|]. intros _. by apply IH.
      * intros [= <- _]. by eapply Hq.
    + intros H. eapply extends_trans; [by eapply Hq|]. revert H. by apply IH.
Qed.

Lemma Pipeline_nested_ind (P : Pipeline -> Prop) :
  (∀ n i o ps c, Forall P ps -> P (mkPipeline n i o ps c)) -> ∀ p, P p.
Proof.
  intros H. fix IH 1. intros [n i o ps c]. apply H.
  induction ps as [|q ps IHps]; constructor; [apply IH|apply IHps].
Qed.

Lemma connect_to_repository_only_extends self p :
  ∀ sids vids, only_extends (_connect_to_repository self p sids vids).
Proof.
  induction p as [n i o ps c IH] using Pipeline_nested_ind.
  intros sids vids s s' r.
  set (p := mkPipeline n i o ps c).
  destruct (already_connected s !! name p) as [[prev report]|] eqn:Hp.
  { rewrite (ConnectFacts.connect_already_connected _ _ _ _ _ _ _ Hp).
    case_match; intros [= <- _]; apply extends_refl. }
  rewrite (ConnectFacts.connect_not_yet_connected _ _ _ _ _ Hp).
  match goal with
  | |- ?m s = _ -> _ =>
      cut (keeps s m);
      [intros Hk Hrun; eapply Hk; [apply extends_refl|exact Hrun]|]
  end.
  apply keeps_bind; [apply keeps_of_only_extends, only_extends_assert_connected|].
  intros _.
  apply keeps_bind; [apply keeps_of_only_extends, only_extends_to_process|].
  intros [|session l]; [apply keeps_of_only_extends; ext_step|].
  apply keeps_bind; [apply keeps_of_only_extends; ext_step|]. intros _.
  apply keeps_bind; [apply keeps_of_only_extends, only_extends_iterators|].
  intros nodes.
  apply keeps_bind; [|intros _; by apply keeps_connect_source_and_sinks].
  apply keeps_of_only_extends. unfold p at 1. cbn [prerequisites].
  destruct ps as [|q ps]; [ext_step|].
  apply only_extends_bind; [|intros reports; apply only_extends_join_prerequisites].
  apply only_extends_connect_prerequisites.
  eapply Forall_impl; [exact IH|]. intros q' Hq'. apply Hq'.
Qed.

(** X7: whatever its outcome, a call of [_connect_to_repository] only adds
    to the plan: the connections, the added workflows and the log it found
    are a prefix of those it leaves, and every entry of the
    [already_connected] table it found is still there with the same
    pipeline and report. *)
Theorem connect_to_repository_extends self p sids vids s s' r :
  _connect_to_repository self p sids vids s = (s', r) -> extends s s'.
Proof. apply connect_to_repository_only_extends. Qed.

Lemma connect_to_repository_extends_witness :
  extends new_workflow
          (_connect_to_repository (processor_of study_one_done) pipeline_A
                                  None None new_workflow).1.
Proof.
  apply (connect_to_repository_extends (processor_of study_one_done) pipeline_A
           None None new_workflow _
           (_connect_to_repository (processor_of study_one_done) pipeline_A
                                   None None new_workflow).2).
  apply surjective_pairing.
Defined.

(** *** Nothing to run *)





(** *** One connection per input *)

Lemma filter_into_inputnode_direct n a af bf l :
  filter (fun e => into_inputnode n e) (mkEdge a af (inputnode n) bf :: l)
  = mkEdge a af (inputnode n) bf :: filter (fun e => into_inputnode n e) l.
Proof.
  rewrite filter_cons_True; [|done].
  rewrite /into_inputnode /=. by rewrite bool_decide_eq_true_2.
Qed.

Lemma filter_into_inputnode_made n a af o bf l :
  filter (fun e => into_inputnode n e) (mkEdge a af (Made o) bf :: l)
  = filter (fun e => into_inputnode n e) l.
Proof. by rewrite filter_cons_False; [intros []|]. Qed.

Lemma connect_input_edges self p source input_spec s s' input :
  connect_input self p source input_spec s = (s', inr input) ->
  ∃ new, edges s' = edges s ++ new
         ∧ dst_field <$> filter (fun e => into_inputnode (name p) e) new
           = [ps_name input_spec].
Proof.
  rewrite /connect_input.
  intros (input' & s1 & Hspec & H)%ConnectFacts.bind_inr.
  rewrite /lift in Hspec. injection Hspec as Hs1 Hsp. subst s1.
  apply ConnectFacts.bind_inr in H as ([] & s2 & H & Hret).
  rewrite /mret /M_ret in Hret. injection Hret as Hs2 Hin. subst s2 input.
  destruct (is_fileset input').
  - case_bool_decide.
    + destruct (converter_from _ _ _) as [[]|c]; try done.
      apply ConnectFacts.bind_inr in H as (conv & s3 & [= <- <-] & H).
      apply ConnectFacts.bind_inr in H as ([] & s4 & [= <-] & [= <-]).
      simpl. eexists [_; _]. split; [by rewrite -assoc|].
      by rewrite filter_into_inputnode_made filter_into_inputnode_direct.
    + injection H as <-. simpl. eexists [_]. split; [done|].
      by rewrite filter_into_inputnode_direct.
  - injection H as <-. simpl. eexists [_]. split; [done|].
    by rewrite filter_into_inputnode_direct.
Qed.

(** X9: when the loop over [pipeline.inputs] completes, the connections it
    added give the input node of the pipeline exactly one connection per
    declared input, in order, each at the field named after the input
    (through a converter or not, fileset or field). *)
Theorem connect_inputs_one_connection_each self p source input_specs last s s' last' :
  connect_inputs self p source input_specs last s = (s', inr last') ->
  ∃ new, edges s' = edges s ++ new
         ∧ dst_field <$> filter (fun e => into_inputnode (name p) e) new
           = ps_name <$> input_specs.
Proof.
  revert last s. induction input_specs as [|i rest IH]; intros last s; simpl.
  - intros [= <- _]. exists []. by rewrite app_nil_r.
  - intros (input & s1 & Hin & H)%ConnectFacts.bind_inr.
    apply connect_input_edges in Hin as (new1 & Hnew1 & Hf1).
    apply IH in H as (new2 & Hnew2 & Hf2).
    exists (new1 ++ new2). split; [by rewrite Hnew2 Hnew1 -assoc|].
    by rewrite filter_app fmap_app Hf1 Hf2.
Qed.

Lemma connect_inputs_one_connection_each_witness :
  ∃ new,
    edges (connect_inputs (processor_of study_converter) pipeline_C source_C
                          (inputs pipeline_C) None new_workflow).1
    = edges new_workflow ++ new
    ∧ dst_field <$> filter (fun e => into_inputnode (name pipeline_C) e) new
      = ps_name <$> inputs pipeline_C.
Proof.
  apply (connect_inputs_one_connection_each (processor_of study_converter)
           pipeline_C source_C (inputs pipeline_C) None new_workflow _
           (Some (scan_stored, mkPipelineSpec "scan" "2.fmt"))).
  reflexivity.
Defined.

(** *** Ordering through the reports *)

Lemma path_step es a af b bf : mkEdge a af b bf ∈ es -> path es a b.
Proof. intros H. by apply (path_edge es (mkEdge a af b bf)). Qed.

Ltac in_list :=
  repeat first [ apply list_elem_of_here | apply list_elem_of_further ].

Ltac path_step := eapply path_step; in_list.

(** X10: [_connect_to_reports] never fails; for every frequency the
    connections it adds lead from the sink to the pipeline report, so the
    report runs after the sink, and the last of them enters the report at
    the field of that frequency (subject_session_pairs, subjects, visits or
    project); it makes two join nodes for per_session, one for per_subject
    and per_visit, none for per_study. *)
Theorem connect_to_reports_orders_report p sink summary f subjects sessions s :
  ∃ s' new e,
    _connect_to_reports p sink summary f subjects sessions s = (s', inr tt)
    ∧ edges s' = edges s ++ new
    ∧ next_serial s' = next_serial s + report_joins f
    ∧ path new sink summary
    ∧ last new = Some e ∧ dst e = summary ∧ dst_field e = report_field f.
Proof.
  destruct f; simpl; rewrite /mbind /M_bind /JoinNode /make_node /connect /=.
  - eexists _, [_; _; _; _], _. split; [reflexivity|]. simpl.
    split; [by rewrite -!assoc|]. split; [lia|]. split; [|done].
    eapply path_trans; [path_step|].
    eapply path_trans; path_step.
  - eexists _, [_; _], _. split; [reflexivity|]. simpl.
    split; [by rewrite -!assoc|]. split; [lia|]. split; [|done].
    eapply path_trans; path_step.
  - eexists _, [_; _], _. split; [reflexivity|]. simpl.
    split; [by rewrite -!assoc|]. split; [lia|]. split; [|done].
    eapply path_trans; path_step.
  - eexists _, [_], _. split; [reflexivity|]. simpl.
    split; [done|]. split; [lia|]. split; [|done].
    path_step.
Qed.

Lemma connect_reports_edges m i reports s :
  ∃ new,
    connect_reports m i reports s
    = (mkState (next_serial s) (added s) (edges s ++ new) (already_connected s)
               (log s), inr tt)
    ∧ src <$> new = reports
    ∧ dst_field <$> new = (fun j => "in" +:+ pretty j) <$> seq i (length reports)
    ∧ Forall (fun e => dst e = m) new.
Proof.
  revert i s. induction reports as [|r reports IH]; intros i s; simpl.
  - exists []. rewrite app_nil_r. by destruct s.
  - rewrite /mbind /M_bind /connect /=.
    destruct (IH (S i) (mkState (next_serial s) (added s)
                                (edges s ++ [mkEdge r "subject_session_pairs" m
                                                    ("in" +:+ pretty i)])
                                (already_connected s) (log s)))
      as (new & -> & Hsrc & Hfld & Hdst).
    exists (mkEdge r "subject_session_pairs" m ("in" +:+ pretty i) :: new).
    split; [by rewrite /= -assoc|].
    split; [by rewrite fmap_cons Hsrc|].
    split; [by rewrite fmap_cons Hfld|]. by constructor.
Qed.

(** X11: [join_prerequisites] (lines 170-180) never fails. With no report
    it adds nothing; otherwise the connections it adds lead from every
    prerequisite report to the subjects node of the dependent pipeline, so
    its iteration starts after every prerequisite that ran: the reports
    enter one merge node at the fields in1 ... inN, N being the number of
    reports, and the merge feeds the subjects node. *)
Theorem join_prerequisites_orders_subjects p subjects reports s :
  ∃ s' new,
    join_prerequisites p subjects reports s = (s', inr tt)
    ∧ edges s' = edges s ++ new
    ∧ (reports = [] -> s' = s)
    ∧ (∀ r, r ∈ reports -> path new r subjects)
    ∧ (reports ≠ [] ->
       ∃ m pre,
         new = pre ++ [mkEdge m "out" subjects "prereq_reports"]
         ∧ src <$> pre = reports
         ∧ Forall (fun e => dst e = m) pre
         ∧ dst_field <$> pre
           = (fun j => "in" +:+ pretty j) <$> seq 1 (length reports)).
Proof.
  rewrite /join_prerequisites. destruct reports as [|r0 reports].
  { exists s, []. rewrite app_nil_r. repeat split; try done.
    intros r Hr. by apply elem_of_nil in Hr. }
  cbv iota. set (rs := r0 :: reports).
  set (m := Made (mkNodeObj (next_serial s) (name p +:+ "_" +:+ "prereq_reports")
                            (Merge (length rs)) NoIterables None None [])).
  set (s1 := mkState (S (next_serial s)) (added s) (edges s)
                     (already_connected s) (log s)).
  destruct (connect_reports_edges m 1 rs s1) as (new & Hrun & Hsrc & Hfld & Hdst).
  exists (mkState (S (next_serial s)) (added s)
                  ((edges s ++ new) ++ [mkEdge m "out" subjects "prereq_reports"])
                  (already_connected s) (log s)),
         (new ++ [mkEdge m "out" subjects "prereq_reports"]).
  split.
  { rewrite (ConnectFacts.bind_run _ _ s s1 m); [reflexivity|].
    by rewrite (ConnectFacts.bind_run _ _ s1 _ tt Hrun). }
  split; [by rewrite /= -assoc|]. split; [done|]. split.
  - intros r Hr. rewrite -Hsrc in Hr.
    apply list_elem_of_fmap in Hr as (e & -> & He).
    eapply path_trans.
    + apply (path_edge _ e). apply elem_of_app. by left.
    + rewrite Forall_forall in Hdst. rewrite (Hdst e He).
      eapply path_step. apply elem_of_app. right. apply list_elem_of_here.
  - intros _. by exists m, new.
Qed.

End ConnectMore.

(** ** More on the equality of the tree snapshot classes *)

Module ArchiveMore.
Import Archive.

Lemma str_eqb_eq a b : str_eqb a b = true ↔ a = b.
Proof. apply bool_decide_eq_true. Qed.

Lemma list_eqb_eq {A : Type} (eqb : A -> A -> bool) (l1 l2 : list A) :
  (∀ x y, eqb x y = true ↔ x = y) ->
  list_eqb eqb l1 l2 = true ↔ l1 = l2.
Proof.
  intros Heqb. revert l2. induction l1 as [|x l1 IH]; intros [|y l2]; simpl;
    try done.
  rewrite andb_true_iff Heqb IH. split; [by intros [-> ->]|by intros [= -> ->]].
Qed.

Lemma session_eqb_eq : ∀ a b, session_eqb a b = true ↔ a = b.
Proof.
  fix IH 1. intros [s1 v1 d1 f1 p1] [s2 v2 d2 f2 p2]. simpl.
  rewrite !andb_true_iff !str_eqb_eq.
  rewrite !(list_eqb_eq str_eqb); [apply str_eqb_eq..|].
  destruct p1 as [pa|], p2 as [pb|].
  - rewrite IH. split; [by intros [[[[-> ->] ->] ->] ->]|by intros [= -> -> -> -> ->]].
  - split; [by intros [_ ?]|done].
  - split; [by intros [_ ?]|done].
  - split; [by intros [[[[-> ->] ->] ->] _]|by intros [= -> -> -> ->]].
Qed.

(** X12: [Session.__eq__] and [Subject.__eq__] hold exactly when the other
    value is an object of the same class with the same ids, data and
    sessions (for a session, the same processed session too): these
    equalities are reflexive, unlike that of visits; and [Subject.__ne__]
    is the negation of [Subject.__eq__]. *)
Theorem Session_Subject_eq_structural (a : Session) (s : Subject) (x : value) :
  (Session__eq__ a x = true ↔ x = VSession a)
  ∧ (Subject__eq__ s x = true ↔ x = VSubject s)
  ∧ Subject__ne__ s x = negb (Subject__eq__ s x).
Proof.
  split; [|split; [|done]].
  - destruct x; simpl; try done. rewrite session_eqb_eq.
    split; [by intros ->|by intros [= ->]].
  - destruct x as [| [i' ss' ds' fs'] | | | |]; simpl; try done.
    destruct s as [i ss ds fs]. simpl.
    rewrite !andb_true_iff str_eqb_eq (list_eqb_eq session_eqb);
      [apply session_eqb_eq|].
    rewrite !(list_eqb_eq str_eqb); [apply str_eqb_eq..|].
    split; [by intros [[[-> ->] ->] ->]|by intros [= -> -> -> ->]].
Qed.

(** X13: equality between a visit and a subject is one-sided: [visit ==
    subject] holds exactly when the subject has the id, sessions, datasets
    and fields of the visit, while [subject == visit] never holds. *)
Theorem Visit_Subject_eq_one_sided (v : Visit) (s : Subject) :
  (Visit__eq__ v (VSubject s) = true
   ↔ visit__id v = subject__id s
     ∧ visit__sessions v = subject__sessions s
     ∧ visit__datasets v = subject__datasets s
     ∧ visit__fields v = subject__fields s)
  ∧ Subject__eq__ s (VVisit v) = false.
Proof.
  split; [|done]. rewrite /Visit__eq__ /=.
  rewrite !andb_true_iff str_eqb_eq (list_eqb_eq session_eqb);
    [apply session_eqb_eq|].
  rewrite !(list_eqb_eq str_eqb); [apply str_eqb_eq..|].
  tauto.
Qed.

End ArchiveMore.

(** ** The connection context of a repository *)

Module RepositoryFacts.
Import Repository.

Lemma cycles_S k : cycles (S k) = cycles k ++ [Connect; Disconnect].
Proof.
  induction k as [|k IH]; [done|].
  change (cycles (S (S k))) with ([Connect; Disconnect] ++ cycles (S k)).
  rewrite {1}IH. reflexivity.
Qed.

Lemma step_keeps_shape self e k :
  calls self
  = cycles k ++ (if bool_decide (0 < _connection_depth self)%Z then [Connect] else []) ->
  ∃ k', calls (step self e)
        = cycles k' ++ (if bool_decide (0 < _connection_depth (step self e))%Z
                        then [Connect] else []).
Proof.
  destruct self as [d c]. simpl. intros ->.
  destruct e; rewrite /step /__enter__ /__exit__ /=.
  - case_bool_decide as Hd; simpl.
    + subst d. exists k. simpl. by rewrite app_nil_r.
    + exists k. repeat case_bool_decide; try done; lia.
  - case_bool_decide as Hd; simpl.
    + exists (S k). rewrite cycles_S.
      rewrite (bool_decide_eq_true_2 (0 < d)%Z); [lia|].
      rewrite (bool_decide_eq_false_2 (0 < d - 1)%Z); [lia|].
      by rewrite app_nil_r -assoc.
    + exists k. repeat case_bool_decide; try done; lia.
Qed.

(** X14: on a new repository, whatever the sequence of [__enter__] and
    [__exit__] calls, balanced or not, the calls made to [connect] and
    [disconnect] strictly alternate, starting with [connect], and the
    connection is open (the last call was [connect]) exactly when the depth
    counter is positive. *)
Theorem connection_open_iff_depth_positive (es : list event) :
  ∃ k, calls (run_events es __init__)
       = cycles k ++ (if bool_decide (0 < _connection_depth (run_events es __init__))%Z
                      then [Connect] else []).
Proof.
  rewrite /run_events.
  assert (∃ k, calls __init__
               = cycles k ++ (if bool_decide (0 < _connection_depth __init__)%Z
                              then [Connect] else [])) as Hinit.
  { by exists 0. }
  revert Hinit. generalize __init__.
  induction es as [|e es IH]; intros self [k Hk]; simpl; [by exists k|].
  apply IH. by eapply step_keeps_shape.
Qed.

Lemma enters_nested n d c :
  (0 < d)%Z ->
  run_events (replicate n Enter) (mkRepository d c)
  = mkRepository (d + Z.of_nat n) c.
Proof.
  revert d. induction n as [|n IH]; intros d Hd.
  - simpl. f_equal. lia.
  - rewrite /run_events /= /__enter__ /=.
    rewrite bool_decide_eq_false_2; [lia|]. simpl.
    rewrite /run_events in IH. rewrite IH; [lia|]. f_equal. lia.
Qed.

Lemma exits_nested n d c :
  (0 < d)%Z ->
  run_events (replicate n Exit) (mkRepository (d + Z.of_nat n) c)
  = mkRepository d c.
Proof.
  revert d. induction n as [|n IH]; intros d Hd.
  - simpl. f_equal. lia.
  - rewrite /run_events /= /__exit__ /=.
    rewrite bool_decide_eq_false_2; [lia|]. simpl.
    rewrite /run_events in IH.
    replace (d + Z.of_nat (S n) - 1)%Z with (d + Z.of_nat n)%Z by lia.
    by apply IH.
Qed.

(** X15: [with] blocks nested to any depth on a repository with no open
    context connect once, on entering the outermost block, and disconnect
    once, on leaving it; the counter is back to zero. *)
Theorem nested_contexts_connect_once (n : nat) (self : BaseRepository) :
  _connection_depth self = 0%Z ->
  run_events (replicate (S n) Enter ++ replicate (S n) Exit) self
  = mkRepository 0 (calls self ++ [Connect; Disconnect]).
Proof.
  destruct self as [d c]. cbn [_connection_depth calls]. intros ->.
  rewrite /run_events foldl_app (replicate_S_end n Exit) foldl_app.
  replace (foldl step (mkRepository 0 c) (replicate (S n) Enter))
    with (run_events (replicate n Enter) (mkRepository 1 (c ++ [Connect])))
    by reflexivity.
  rewrite enters_nested; [lia|].
  pose proof (exits_nested n 1 (c ++ [Connect])) as Hx.
  rewrite /run_events in Hx. rewrite Hx; [lia|].
  by rewrite /= /__exit__ /= -assoc.
Qed.

Lemma nested_contexts_connect_once_witness :
  run_events (replicate 3 Enter ++ replicate 3 Exit) __init__
  = mkRepository 0 (calls __init__ ++ [Connect; Disconnect]).
Proof. apply (nested_contexts_connect_once 2 __init__). reflexivity. Defined.

(** X16: after an [__exit__] that matches no [__enter__], the counter is
    below zero and the [with] blocks that follow, however many, enter and
    leave without ever calling [connect]. *)
Theorem unmatched_exit_disables_connect (n : nat) (self : BaseRepository) :
  _connection_depth self = 0%Z ->
  run_events (Exit :: blocks n) self = mkRepository (-1) (calls self).
Proof.
  destruct self as [d c]. simpl. intros ->.
  rewrite /run_events /= /__exit__ /=.
  induction n as [|n IH]; [done|].
  change (blocks (S n)) with ([Enter; Exit] ++ blocks n).
  rewrite foldl_app. simpl. rewrite /__enter__ /__exit__ /=. exact IH.
Qed.

Lemma unmatched_exit_disables_connect_witness :
  run_events (Exit :: blocks 2) __init__ = mkRepository (-1) (calls __init__).
Proof. apply (unmatched_exit_disables_connect 2 __init__). reflexivity. Defined.

End RepositoryFacts.

(** ** The study class: bound specs and inherited data specs *)

Module ArcanaStudyFacts.
Import ArcanaStudy.

Lemma last_named_cons n d specs :
  last_named n (d :: specs) =
    match last_named n specs with
    | Some d' => Some d'
    | None => if decide (name d = n) then Some d else None
    end.
Proof.
  rewrite /last_named filter_cons.
  case: (decide (name d = n)) => Hd.
  - by rewrite last_cons.
  - by case: (last _).
Qed.

Lemma update_lookup specs : forall m n,
  update m specs !! n =
    match last_named n specs with
    | Some d => Some d
    | None => m !! n
    end.
Proof.
  elim: specs => [|d specs IH] m n //.
  rewrite /update /= -/(update _ specs) IH last_named_cons.
  case: (last_named n specs) => [d'|] //.
  case: (decide (name d = n)) => Hd.
  - by rewrite -Hd lookup_insert_eq.
  - by rewrite lookup_insert_ne.
Qed.

Lemma bases_lookup bases n :
  foldl (fun m base => match base with
                       | Some specs => update m specs
                       | None => m
                       end) (∅ : gmap string DataSpec) (reverse bases) !! n
  = from_bases n bases.
Proof.
  elim: bases => [|base bases IH] //=.
  rewrite reverse_cons foldl_app /=.
  case: base => [specs|] /=.
  - rewrite update_lookup IH. by case: (last_named n specs).
  - exact IH.
Qed.

(** X17: a second call of [bound_spec] with the same name returns what the
    first call returned, an error included, and leaves the study as the
    first call left it; the first call changes nothing but the cache of
    bound specs, and there only the entry of the name asked for. *)
Theorem bound_spec_cached {Bound : Type} (bind : DataSpec -> Study Bound -> Bound)
  (self : Study Bound) (n : string) :
  let r := bound_spec bind self n in
  bound_spec bind r.2 n = r
  /\ _data_specs r.2 = _data_specs self
  /\ _inputs r.2 = _inputs self
  /\ forall m, m <> n -> _bound_specs r.2 !! m = _bound_specs self !! m.
Proof.
  rewrite /bound_spec /data_spec.
  case Hs: (_data_specs self !! n) => [spec|] /=; last by rewrite Hs.
  case Hi: (_inputs self !! n) => [b|] /=; first by rewrite Hs Hi.
  case Hd: (negb (derived spec) && bool_decide (default spec = None)) => /=;
    first by rewrite Hs Hi Hd.
  case Hc: (_bound_specs self !! n) => [b|] /=; first by rewrite Hs Hi Hd Hc.
  rewrite Hs Hi Hd lookup_insert_eq.
  do 3 (split; first done).
  move=> m Hm. by rewrite lookup_insert_ne.
Qed.

(** X18: the data spec a new study class has under a name is the last one
    of that name among the specs the class adds; when the class adds none,
    it is the spec of the first base, from the left, that has one; and
    there is none when neither the class nor a base has one. *)
Theorem combined_data_specs_override bases add_data_specs n :
  combined_data_specs bases add_data_specs !! n =
    match last_named n add_data_specs with
    | Some d => Some d
    | None => from_bases n bases
    end.
Proof.
  by rewrite /combined_data_specs update_lookup bases_lookup.
Qed.

End ArcanaStudyFacts.

(** ** The asset ids of DaRIS *)

Module DarisFacts.
Import Daris.

Lemma add_ids_spec ids : forall cid,
  add_ids cid ids =
    if has_gap ids then inl AssertionError else inr (dotted cid (leading ids)).
Proof.
  elim: ids => [|[id|] ids IH] cid //=.
Qed.

(** X19: [construct_cid] fails with an assertion error when an id is given
    after one that is left out; otherwise the id is [1008], the repository
    id and the project id followed by the ids given, in the order subject,
    study, processed, file, all separated by dots. *)
Theorem construct_cid_hierarchy project_id subject_id study_id processed file_id repo_id :
  let ids := [subject_id; study_id; processed; file_id] in
  construct_cid project_id subject_id study_id processed file_id repo_id =
    if has_gap ids then inl AssertionError
    else inr (dotted ("1008." +:+ pretty repo_id +:+ "." +:+ pretty project_id)
                     (leading ids)).
Proof.
  exact: add_ids_spec.
Qed.

End DarisFacts.
